(** * sktop: the refresh and reconciliation engine of [sktop.py]

    A shallow embedding of the parts of [src/sktop.py] that poll the
    scheduler, rebuild the job table, keep the selection set and run the
    cancel command, followed by the properties of the specification proved
    (or refuted) about them.

    Python values are dynamically typed; the embedding keeps the two kinds
    of value that the fields of a job record of [squeue --json] hold
    (strings and integers), exceptions are explicit, and every function that
    mutates the application object is a state-passing computation that
    either returns or raises. *)

From stdpp Require Import gmap strings list pretty.

(** ** Python values, exceptions and computations *)

Module Py.

(** A field of a job record: a JSON string or a JSON integer. *)
Inductive val :=
| VStr (s : string)
| VInt (z : Z).

#[global] Instance val_eq_dec : EqDecision val.
Proof. solve_decision. Defined.

(** [str(v)] *)
Definition py_str (v : val) : string :=
  match v with
  | VStr s => s
  | VInt z => pretty z
  end.

(** Truth value of [v] in [if v]: the empty string and zero are false. *)
Definition truthy (v : val) : bool :=
  match v with
  | VStr s => bool_decide (s ≠ "")
  | VInt z => bool_decide (z ≠ 0%Z)
  end.

(** [d.get(k, default)] on a dict with string keys. *)
Definition get (d : gmap string val) (k : string) (dflt : val) : val :=
  default dflt (d !! k).

(** [divmod(a, b)]: floor division and its remainder. *)
Definition divmod (a b : Z) : Z * Z := ((a `div` b)%Z, (a `mod` b)%Z).

(** [f"{z:02d}"]: at least two characters, padded with a zero on the left. *)
Definition fmt02 (z : Z) : string :=
  let s := pretty z in
  if bool_decide (String.length s < 2) then "0" +:+ s else s.

(** The exceptions that the modelled code can meet.  All of them derive
    from [Exception], so both [except Exception] and a bare [except] catch
    each of them. *)
Inductive exn :=
| OSError              (* the executable cannot be started *)
| UnicodeDecodeError   (* bytes.decode() *)
| JSONDecodeError      (* json.loads *)
| AttributeError       (* .get on a value that is not a dict *)
| TypeError            (* int - str, iteration over a non-iterable *)
| DuplicateKey (key : string)   (* DataTable.add_row *)
| RowDoesNotExist      (* DataTable.get_row_index *)
| CellDoesNotExist.    (* DataTable.coordinate_to_cell_key *)

#[global] Instance exn_eq_dec : EqDecision exn.
Proof. solve_decision. Defined.

Inductive result (A : Type) :=
| Ok (a : A)
| Raise (e : exn).
Arguments Ok {A} a.
Arguments Raise {A} e.

(** A computation on a mutable object of type [S]: it returns or raises,
    and the mutations made before a raise stay in place. *)
Definition M (S A : Type) : Type := S → result A * S.

Definition ret {S A} (a : A) : M S A := λ s, (Ok a, s).

Definition raise {S A} (e : exn) : M S A := λ s, (Raise e, s).

Definition bind {S A B} (m : M S A) (k : A → M S B) : M S B :=
  λ s, match m s with
       | (Ok a, s') => k a s'
       | (Raise e, s') => (Raise e, s')
       end.

(** [try: m  except Exception as e: h e] *)
Definition try_except {S A} (m : M S A) (h : exn → M S A) : M S A :=
  λ s, match m s with
       | (Ok a, s') => (Ok a, s')
       | (Raise e, s') => h e s'
       end.

Definition gets {S A} (f : S → A) : M S A := λ s, (Ok (f s), s).

Definition modify {S} (f : S → S) : M S unit := λ s, (Ok tt, f s).

(** A pure step that may raise. *)
Definition lift {S A} (r : result A) : M S A := λ s, (r, s).

(** [for x in l: body x]; a raise in the body leaves the loop. *)
Fixpoint for_each {S A} (body : A → M S unit) (l : list A) : M S unit :=
  match l with
  | [] => ret tt
  | x :: l' => bind (body x) (λ _, for_each body l')
  end.

(** [P] holds after [m] whenever it held before, whether [m] returns or
    raises. *)
Definition invariant {S A} (P : S → Prop) (m : M S A) : Prop :=
  ∀ s, P s → P (snd (m s)).

End Py.

Import Py.

Notation "'let!' x ':=' m 'in' k" := (bind m (λ x, k))
  (at level 10, x name, m at level 100, k at level 200,
   format "'[v' 'let!'  x  ':='  m  'in' '/' k ']'").
Notation "'do!' m 'in' k" := (bind m (λ _, k))
  (at level 10, m at level 100, k at level 200,
   format "'[v' 'do!'  m  'in' '/' k ']'").

(** ** Textual's [DataTable], as far as the application calls it *)

Module DataTable.

(** One row: its key and the six cells of the columns JOBID, PARTITION,
    NAME, STATE, TIME and NODELIST(REASON). *)
Record Row := {
  row_key : string;
  c_jobid : string;
  c_partition : val;
  c_name : val;
  c_state : val;
  c_time : string;
  c_last : val
}.

(** The rows in display order and the row of the cursor
    ([cursor_coordinate.row]). *)
Record t := {
  rows : list Row;
  cursor_row : nat
}.

Definition empty : t := {| rows := []; cursor_row := 0 |}.

Definition row_count (tb : t) : nat := length (rows tb).

Definition keys (tb : t) : list string := row_key <$> rows tb.

(** [coordinate_to_cell_key(cursor_coordinate).row_key.value]: the key of
    the row under the cursor; [CellDoesNotExist] when there is no such row. *)
Definition cursor_key (tb : t) : result string :=
  match rows tb !! cursor_row tb with
  | Some r => Ok (row_key r)
  | None => Raise CellDoesNotExist
  end.

(** [clear()]: no rows, cursor back at the origin. *)
Definition clear (tb : t) : t := empty.

(** [add_row(cells, key=k)]: appends; a key already in the table raises
    [DuplicateKey]. *)
Definition add_row (r : Row) (tb : t) : result t :=
  if bool_decide (row_key r ∈ keys tb) then Raise (DuplicateKey (row_key r))
  else Ok {| rows := rows tb ++ [r]; cursor_row := cursor_row tb |}.

(** [get_row_index(k)]: the index of the row with key [k];
    [RowDoesNotExist] when no row has it. *)
Definition get_row_index (k : string) (tb : t) : result nat :=
  match list_find (λ r, row_key r = k) (rows tb) with
  | Some (i, _) => Ok i
  | None => Raise RowDoesNotExist
  end.

(** [move_cursor(row=i)]: the cursor goes to row [i], clamped to the table. *)
Definition move_cursor (i : nat) (tb : t) : t :=
  {| rows := rows tb; cursor_row := i `min` (row_count tb - 1) |}.

End DataTable.

(** ** The outside world: subprocesses and the worker pool *)

(** What [json.loads] returns, as far as [get_jobs] and the refresh loop
    look at it: the value under the key ["jobs"] of the top-level object. *)
Inductive pyjobs :=
| JobList (l : list (gmap string val))   (* a list of job objects *)
| NotIterable.                           (* a number, a boolean or null *)

Inductive pydata :=
| DObject (jobs_member : option pyjobs)  (* an object, with or without "jobs" *)
| DNotObject.                            (* any other JSON value: no .get *)

(** What [stdout.decode()] followed by [json.loads] makes of the bytes
    that the process wrote. *)
Inductive stdout_content :=
| Undecodable                (* decode() raises UnicodeDecodeError *)
| NotJson                    (* json.loads raises JSONDecodeError *)
| Json (data : pydata).

(** How one [create_subprocess_exec] followed by [communicate] turns out.
    [stderr] is [None] when its bytes do not decode. *)
Inductive proc_outcome :=
| LaunchFails (e : exn)
| Exits (returncode : Z) (stdout : stdout_content) (stderr : option string).

(** The entries that [logger.error] appends to [sktop.log]. *)
Inductive log_entry :=
| SqueueError (stderr : string)     (* "squeue error: {stderr}" *)
| FetchFailed (e : exn)             (* "Failed to fetch jobs: {e}" *)
| ScancelError (stderr : string)    (* "scancel error: {stderr}" *)
| CancelFailed (e : exn).           (* "Failed to cancel jobs: {e}" *)

Inductive severity := Information | Error.

(** One call of [self.notify(message, severity=...)]. *)
Record notification := {
  message : string;
  level : severity
}.

(** Where a worker coroutine is suspended. *)
Inductive stage :=
| AwaitGetJobs                          (* refresh_jobs, in get_jobs (l.327, l.330) *)
| AwaitCancel (job_ids : list string)   (* do_kill_jobs, in cancel_jobs (l.441) *)
| AwaitGetJobsAfterCancel.              (* do_kill_jobs, in get_jobs (l.445, l.330) *)

#[global] Instance stage_eq_dec : EqDecision stage.
Proof. solve_decision. Defined.

Record worker := {
  wid : nat;
  at_stage : stage
}.

(** [work(exclusive=True)] is Textual's decorator: what it does to the
    workers that are already running is not in this repository, so the
    model takes it as a parameter with two readings.
    - [CancelGroup]: Textual's documented behaviour, "cancel all workers in
      the same group"; every [work] of the application uses the default
      group, so the workers of [do_kill_jobs] are cancelled as well.  A
      cancelled coroutine is suspended in an [await] of [get_jobs] or
      [cancel_jobs]; no handler there catches the cancellation, so the
      worker just ends.  The process that it was waiting for is not
      stopped by that: the model counts workers, and follows a process no
      further once its worker is gone.
    - [DropNew]: the reading of the specification, a trigger is ignored
      while a worker of [refresh_jobs] is running. *)
Inductive exclusive_mode := CancelGroup | DropNew.

(** The application object: the fields of [SltopApp] and [JobManager], the
    table widget, and what the run leaves behind (notifications, the error
    log, the argument vectors passed to [create_subprocess_exec]). *)
Record App := {
  user : string;
  table : DataTable.t;
  selected_jobs : gset string;
  notifications : list notification;
  error_log : list log_entry;
  exec_calls : list (list string);
  workers : list worker;
  next_wid : nat;
  exited : option exn     (* the exception of a worker that ended the app *)
}.

Definition with_table (tb : DataTable.t) (a : App) : App :=
  {| user := user a; table := tb; selected_jobs := selected_jobs a;
     notifications := notifications a; error_log := error_log a;
     exec_calls := exec_calls a; workers := workers a;
     next_wid := next_wid a; exited := exited a |}.

Definition with_selected (s : gset string) (a : App) : App :=
  {| user := user a; table := table a; selected_jobs := s;
     notifications := notifications a; error_log := error_log a;
     exec_calls := exec_calls a; workers := workers a;
     next_wid := next_wid a; exited := exited a |}.

Definition with_notifications (n : list notification) (a : App) : App :=
  {| user := user a; table := table a; selected_jobs := selected_jobs a;
     notifications := n; error_log := error_log a;
     exec_calls := exec_calls a; workers := workers a;
     next_wid := next_wid a; exited := exited a |}.

Definition with_error_log (l : list log_entry) (a : App) : App :=
  {| user := user a; table := table a; selected_jobs := selected_jobs a;
     notifications := notifications a; error_log := l;
     exec_calls := exec_calls a; workers := workers a;
     next_wid := next_wid a; exited := exited a |}.

Definition with_exec_calls (c : list (list string)) (a : App) : App :=
  {| user := user a; table := table a; selected_jobs := selected_jobs a;
     notifications := notifications a; error_log := error_log a;
     exec_calls := c; workers := workers a;
     next_wid := next_wid a; exited := exited a |}.

Definition with_workers (ws : list worker) (n : nat) (a : App) : App :=
  {| user := user a; table := table a; selected_jobs := selected_jobs a;
     notifications := notifications a; error_log := error_log a;
     exec_calls := exec_calls a; workers := ws;
     next_wid := n; exited := exited a |}.

Definition with_exited (e : option exn) (a : App) : App :=
  {| user := user a; table := table a; selected_jobs := selected_jobs a;
     notifications := notifications a; error_log := error_log a;
     exec_calls := exec_calls a; workers := workers a;
     next_wid := next_wid a; exited := e |}.

(** [SltopApp.__init__] followed by [compose]: an empty table, nothing
    selected, no worker. *)
Definition init (u : string) : App :=
  {| user := u; table := DataTable.empty; selected_jobs := ∅;
     notifications := []; error_log := []; exec_calls := [];
     workers := []; next_wid := 0; exited := None |}.

(** [logger.error(...)] *)
Definition logger_error (e : log_entry) : M App unit :=
  modify (λ a, with_error_log (error_log a ++ [e]) a).

(** [self.notify(msg, severity=sev)] *)
Definition notify (msg : string) (sev : severity) : M App unit :=
  modify (λ a, with_notifications
                 (notifications a ++ [{| message := msg; level := sev |}]) a).

(** [await asyncio.create_subprocess_exec(cmd)] and
    [await process.communicate()], with the outcome [o] of the process.
    The command goes on record when the outcome reaches the coroutine, so
    [exec_calls] lists the processes whose worker saw them end. *)
Definition run_process (cmd : list string) (o : proc_outcome)
  : M App (Z * stdout_content * option string) :=
  do! modify (λ a, with_exec_calls (exec_calls a ++ [cmd]) a) in
  match o with
  | LaunchFails e => raise e
  | Exits rc out err => ret (rc, out, err)
  end.

(** [stderr.decode()] *)
Definition decode (b : option string) : M App string :=
  match b with
  | Some s => ret s
  | None => raise UnicodeDecodeError
  end.

(** [json.loads(stdout.decode())] *)
Definition json_loads (out : stdout_content) : M App pydata :=
  match out with
  | Undecodable => raise UnicodeDecodeError
  | NotJson => raise JSONDecodeError
  | Json d => ret d
  end.

(** [data.get("jobs", [])] *)
Definition data_get_jobs (d : pydata) : M App pyjobs :=
  match d with
  | DObject (Some v) => ret v
  | DObject None => ret (JobList [])
  | DNotObject => raise AttributeError
  end.

(** ** [JobManager] *)

Module JobManager.

(** [get_jobs] (l.39-60), given the outcome of the [squeue] process. *)
Definition get_jobs (o : proc_outcome) : M App pyjobs :=
  let! u := gets user in
  let cmd := ["squeue"; "-u"; u; "--json"] in
  try_except
    (let! p := run_process cmd o in
     let '(returncode, stdout, stderr) := p in
     if bool_decide (returncode ≠ 0%Z) then
       let! msg := decode stderr in
       do! logger_error (SqueueError msg) in
       ret (JobList [])
     else
       let! data := json_loads stdout in
       let! jobs := data_get_jobs data in
       ret jobs)
    (λ e,
     do! logger_error (FetchFailed e) in
     ret (JobList [])).

(** [cancel_jobs] (l.62-82), given the outcome of the [scancel] process. *)
Definition cancel_jobs (job_ids : list string) (o : proc_outcome) : M App bool :=
  if bool_decide (job_ids = []) then ret false
  else
    let cmd := "scancel" :: job_ids in
    try_except
      (let! p := run_process cmd o in
       let '(returncode, _, stderr) := p in
       if bool_decide (returncode ≠ 0%Z) then
         let! msg := decode stderr in
         do! logger_error (ScancelError msg) in
         ret false
       else ret true)
      (λ e,
       do! logger_error (CancelFailed e) in
       ret false).

End JobManager.

(** ** [SltopApp] *)

Module SltopApp.

(** The states that the refresh loop leaves out (l.359). *)
Definition terminal_states : list val :=
  [VStr "CANCELLED"; VStr "COMPLETED"; VStr "FAILED"; VStr "TIMEOUT"].

(** [format_time_used] (l.304-323); [now] is [int(time.time())]. *)
Definition format_time_used (now : Z) (start_time state : val) : result string :=
  if bool_decide (state ≠ VStr "RUNNING") then Ok "0:00"
  else
    match start_time with
    | VStr _ => Raise TypeError
    | VInt st =>
      let diff := (now - st)%Z in
      if bool_decide (diff < 0)%Z then Ok "0:00"
      else
        let '(m, s) := divmod diff 60 in
        let '(h, m) := divmod m 60 in
        let '(d, h) := divmod h 24 in
        if bool_decide (d > 0)%Z then
          Ok (pretty d +:+ "-" +:+ fmt02 h +:+ ":" +:+ fmt02 m +:+ ":" +:+ fmt02 s)
        else if bool_decide (h > 0)%Z then
          Ok (pretty h +:+ ":" +:+ fmt02 m +:+ ":" +:+ fmt02 s)
        else
          Ok (pretty m +:+ ":" +:+ fmt02 s)
    end.

(** The last column (l.362-370). *)
Definition placement (job : gmap string val) : val :=
  let state := get job "job_state" (VStr "") in
  let nodes := get job "nodes" (VStr "") in
  let reason := get job "job_reason" (VStr "") in
  if bool_decide (state = VStr "PENDING") then
    if truthy reason then VStr ("(" +:+ py_str reason +:+ ")")
    else VStr "(PENDING)"
  else nodes.

(** The first cell (l.372-380). *)
Definition job_id_display (job_id : string) (selected : gset string) : string :=
  if bool_decide (job_id ∈ selected) then "[bold green]* " +:+ job_id +:+ "[/]"
  else job_id.

(** [table.add_row(..., key=job_id)] on the table of the application. *)
Definition table_add_row (r : DataTable.Row) : M App unit :=
  let! tb := gets table in
  let! tb' := lift (DataTable.add_row r tb) in
  modify (with_table tb').

(** The body of the loop over the fetched jobs (l.347-390).  The loop has
    no [await]; [now] is the reading of the clock during it. *)
Definition add_job_row (now : Z) (job : gmap string val) : M App unit :=
  let job_id := py_str (get job "job_id" (VStr "")) in
  let partition := get job "partition" (VStr "") in
  let name := get job "name" (VStr "") in
  let state := get job "job_state" (VStr "") in
  let start_time := get job "start_time" (VInt 0) in
  let! time_used := lift (format_time_used now start_time state) in
  if bool_decide (state ∈ terminal_states) then ret tt
  else
    let last_col := placement job in
    let! selected := gets selected_jobs in
    table_add_row
      {| DataTable.row_key := job_id;
         DataTable.c_jobid := job_id_display job_id selected;
         DataTable.c_partition := partition;
         DataTable.c_name := name;
         DataTable.c_state := state;
         DataTable.c_time := time_used;
         DataTable.c_last := last_col |}.

(** The key of the highlighted row before the table is rebuilt (l.338-343). *)
Definition capture_cursor : M App (option string) :=
  try_except
    (let! tb := gets table in
     if bool_decide (0 < DataTable.row_count tb) then
       let! k := lift (DataTable.cursor_key tb) in
       ret (Some k)
     else ret None)
    (λ _, ret None).

(** The cursor goes back to the row of the captured key (l.392-398). *)
Definition restore_cursor (current_row_key : option string) : M App unit :=
  match current_row_key with
  | Some k =>
    try_except
      (let! tb := gets table in
       let! row_index := lift (DataTable.get_row_index k tb) in
       modify (with_table (DataTable.move_cursor row_index tb)))
      (λ _, ret tt)
  | None => ret tt
  end.

(** [refresh_jobs_async] after its [await] (l.332-398): the table is
    rebuilt from [jobs], what [get_jobs] returned. *)
Definition merge (now : Z) (jobs : pyjobs) : M App unit :=
  let! current_row_key := capture_cursor in
  do! modify (λ a, with_table (DataTable.clear (table a)) a) in
  do! match jobs with
      | JobList l => for_each (add_job_row now) l
      | NotIterable => raise TypeError
      end in
  restore_cursor current_row_key.

(** [refresh_jobs_async] (l.329-398), given the outcome of [squeue]. *)
Definition refresh_jobs_async (o : proc_outcome) (now : Z) : M App unit :=
  let! jobs := JobManager.get_jobs o in
  merge now jobs.

(** [do_kill_jobs] (l.439-447), run from its start to its end, given the
    outcomes of [scancel] and of the [squeue] that follows a success. *)
Definition do_kill_jobs (job_ids : list string)
    (cancel_o fetch_o : proc_outcome) (now : Z) : M App unit :=
  let! success := JobManager.cancel_jobs job_ids cancel_o in
  if success then
    do! notify ("Cancelled " +:+ pretty (length job_ids) +:+ " jobs.") Information in
    do! modify (with_selected ∅) in
    refresh_jobs_async fetch_o now
  else
    notify "Failed to cancel some jobs." Error.

(** *** Workers *)

Section Workers.

Variable mode : exclusive_mode.

(** A new worker, suspended at [st]. *)
Definition start_worker (st : stage) : M App unit :=
  modify (λ a, with_workers (workers a ++ [{| wid := next_wid a; at_stage := st |}])
                            (S (next_wid a)) a).

(** [self.refresh_jobs()] (l.325-327): a worker of [refresh_jobs_async] is
    asked for through [work(exclusive=True)]. *)
Definition refresh_jobs : M App unit :=
  match mode with
  | CancelGroup =>
    do! modify (λ a, with_workers [] (next_wid a) a) in
    start_worker AwaitGetJobs
  | DropNew =>
    let! ws := gets workers in
    if bool_decide (Exists (λ w, at_stage w = AwaitGetJobs) ws) then ret tt
    else start_worker AwaitGetJobs
  end.

(** [on_mount] (l.294-302): the initial load; the interval timer then
    fires [Tick]s. *)
Definition on_mount : M App unit := refresh_jobs.

(** [action_refresh_now] (l.484-485) *)
Definition action_refresh_now : M App unit := refresh_jobs.

(** [action_toggle_select] (l.400-413) *)
Definition action_toggle_select : M App unit :=
  try_except
    (let! tb := gets table in
     let! job_id := lift (DataTable.cursor_key tb) in
     let! selected := gets selected_jobs in
     do! (if bool_decide (job_id ∈ selected) then
            modify (with_selected (selected ∖ {[job_id]}))
          else
            modify (with_selected (selected ∪ {[job_id]}))) in
     refresh_jobs)
    (λ _, ret tt).

(** [action_kill_job] (l.415-437): the targets that the confirmation
    screen is pushed with, [None] when the action returns without asking. *)
Definition action_kill_job : M App (option (list string)) :=
  let! selected := gets selected_jobs in
  let targets := elements selected in
  if bool_decide (targets = []) then
    try_except
      (let! tb := gets table in
       let! k := lift (DataTable.cursor_key tb) in
       ret (Some [k]))
      (λ _, ret None)
  else ret (Some targets).

(** [do_kill_jobs] from the return of [cancel_jobs] to its next [await]
    (l.442-447); [true] when it goes on into [refresh_jobs_async]. *)
Definition after_cancel (job_ids : list string) (success : bool) : M App bool :=
  if success then
    do! notify ("Cancelled " +:+ pretty (length job_ids) +:+ " jobs.") Information in
    do! modify (with_selected ∅) in
    ret true
  else
    do! notify "Failed to cancel some jobs." Error in
    ret false.

(** [self.do_kill_jobs(targets)] through [work]: the coroutine runs to its
    first [await].  With no target [cancel_jobs] returns at once. *)
Definition start_do_kill_jobs (job_ids : list string) : M App unit :=
  if bool_decide (job_ids = []) then
    do! after_cancel job_ids false in ret tt
  else start_worker (AwaitCancel job_ids).

Definition worker_stage (w : nat) (a : App) : option stage :=
  at_stage <$> (snd <$> list_find (λ x, wid x = w) (workers a)).

Definition remove_worker (w : nat) (a : App) : App :=
  with_workers (filter (λ x, wid x ≠ w) (workers a)) (next_wid a) a.

Definition set_stage (w : nat) (st : stage) (a : App) : App :=
  with_workers
    ((λ x, if bool_decide (wid x = w) then {| wid := w; at_stage := st |} else x)
       <$> workers a)
    (next_wid a) a.

(** Worker [w] runs [m] up to its next [await] ([Some st]) or to its end
    ([None]); an exception that leaves the coroutine ends the application
    ([exit_on_error] is left at its default). *)
Definition resume (w : nat) (m : M App (option stage)) (a : App) : App :=
  match m a with
  | (Ok (Some st), a') => set_stage w st a'
  | (Ok None, a') => remove_worker w a'
  | (Raise e, a') => with_exited (Some e) (remove_worker w a')
  end.

(** What the event loop delivers. *)
Inductive event :=
| Tick                                   (* the interval timer *)
| KeyR                                   (* "r": action_refresh_now *)
| KeySpace                               (* "space": action_toggle_select *)
| ConfirmKill (targets : list string)    (* "Yes": check_confirm(True) *)
| CancelReturns (w : nat) (o : proc_outcome)
| FetchReturns (w : nat) (o : proc_outcome) (now : Z).

Definition step (e : event) (a : App) : App :=
  if bool_decide (is_Some (exited a)) then a
  else
    match e with
    | Tick => snd (refresh_jobs a)
    | KeyR => snd (action_refresh_now a)
    | KeySpace => snd (action_toggle_select a)
    | ConfirmKill targets => snd (start_do_kill_jobs targets a)
    | CancelReturns w o =>
      match worker_stage w a with
      | Some (AwaitCancel job_ids) =>
        resume w
          (let! success := JobManager.cancel_jobs job_ids o in
           let! goes_on := after_cancel job_ids success in
           ret (if goes_on then Some AwaitGetJobsAfterCancel else None)) a
      | _ => a
      end
    | FetchReturns w o now =>
      match worker_stage w a with
      | Some AwaitGetJobs | Some AwaitGetJobsAfterCancel =>
        resume w (do! refresh_jobs_async o now in ret None) a
      | _ => a
      end
    end.

Definition run (events : list event) (a : App) : App :=
  foldl (λ s e, step e s) a events.

End Workers.

(** A worker suspended in the [get_jobs] of a refresh cycle. *)
Definition fetching (w : worker) : Prop :=
  at_stage w = AwaitGetJobs ∨ at_stage w = AwaitGetJobsAfterCancel.

#[global] Instance fetching_dec w : Decision (fetching w).
Proof. unfold fetching. apply _. Defined.

(** The refresh cycles in flight: the workers that wait for their
    [squeue], whether they came in through [refresh_jobs] or through
    [do_kill_jobs]. *)
Definition cycles_in_flight (a : App) : nat :=
  length (filter fetching (workers a)).

(** Worker identifiers are handed out once: those of the workers that are
    running are distinct and below the next one. *)
Definition distinct_workers (a : App) : Prop :=
  NoDup (wid <$> workers a) ∧ Forall (λ x, wid x < next_wid a) (workers a).

End SltopApp.

(** ** Vocabulary of the specification *)

Module Spec.

Import SltopApp.

(** The merge key of a job record: [str(job.get("job_id", ""))]. *)
Definition job_key (job : gmap string val) : string :=
  py_str (get job "job_id" (VStr "")).

Definition job_state (job : gmap string val) : val :=
  get job "job_state" (VStr "").

(** The snapshot after the terminal-state filter. *)
Definition surviving (jobs : list (gmap string val)) : list (gmap string val) :=
  filter (λ j, job_state j ∉ terminal_states) jobs.

(** A job record of the expected shape: a running job carries an integer
    [start_time]. *)
Definition typed_start (job : gmap string val) : Prop :=
  job_state job = VStr "RUNNING" → ∃ z, get job "start_time" (VInt 0) = VInt z.

(** A snapshot as the data model describes it: records of the expected
    shape, identifiers unique among the jobs that are shown. *)
Definition well_formed (jobs : list (gmap string val)) : Prop :=
  Forall typed_start jobs ∧ NoDup (job_key <$> surviving jobs).

(** The failed polls of the error taxonomy: the process does not start,
    exits with a non-zero code, or writes something that is not a JSON
    object. *)
Definition poll_failed (o : proc_outcome) : Prop :=
  match o with
  | LaunchFails _ => True
  | Exits rc out _ =>
    rc ≠ 0%Z ∨ out = Undecodable ∨ out = NotJson ∨ out = Json DNotObject
  end.

(** The external cancel command reports success: it was given at least
    one identifier and exited with code zero. *)
Definition cancel_succeeds (job_ids : list string) (o : proc_outcome) : Prop :=
  job_ids ≠ [] ∧ ∃ out err, o = Exits 0 out err.

(** The elapsed time written as the specification words it: days, hours,
    minutes and seconds, each unit followed by its separator; leading units
    that are zero are dropped, minutes and seconds always stay; the first
    unit left is written plainly, the others on two digits. *)
Definition units (e : Z) : list (Z * string) :=
  [((e `div` 86400)%Z, "-"); (((e `div` 3600) `mod` 24)%Z, ":");
   (((e `div` 60) `mod` 60)%Z, ":"); ((e `mod` 60)%Z, "")].

Fixpoint drop_zero_units (l : list (Z * string)) : list (Z * string) :=
  match l with
  | (v, sep) :: l' =>
    if bool_decide (v = 0%Z ∧ 2 ≤ length l') then drop_zero_units l' else l
  | [] => []
  end.

Fixpoint render_rest (l : list (Z * string)) : string :=
  match l with
  | (v, sep) :: l' => fmt02 v +:+ sep +:+ render_rest l'
  | [] => ""
  end.

Definition render (l : list (Z * string)) : string :=
  match l with
  | (v, sep) :: l' => pretty v +:+ sep +:+ render_rest l'
  | [] => ""
  end.

Definition elapsed_format (e : Z) : string := render (drop_zero_units (units e)).

(** Row [r] shows the job record [job], drawn at time [now] while [sel]
    is selected. *)
Definition shows (now : Z) (sel : gset string)
    (r : DataTable.Row) (job : gmap string val) : Prop :=
  DataTable.row_key r = job_key job ∧
  DataTable.c_jobid r = job_id_display (job_key job) sel ∧
  DataTable.c_partition r = get job "partition" (VStr "") ∧
  DataTable.c_name r = get job "name" (VStr "") ∧
  DataTable.c_state r = job_state job ∧
  format_time_used now (get job "start_time" (VInt 0)) (job_state job)
  = Ok (DataTable.c_time r) ∧
  DataTable.c_last r = placement job.

(** The placement of a job as the specification words it: the reason in
    parentheses for a pending job, a placeholder when it has none, the node
    list for any other job. *)
Definition placement_as_specified (job : gmap string val) (cell : val) : Prop :=
  (job_state job = VStr "PENDING" →
   ∀ s, job !! "job_reason" = Some (VStr s) → s ≠ "" →
        cell = VStr ("(" +:+ s +:+ ")")) ∧
  (job_state job = VStr "PENDING" →
   job !! "job_reason" = None ∨ job !! "job_reason" = Some (VStr "") →
   cell = VStr "(PENDING)") ∧
  (job_state job ≠ VStr "PENDING" → cell = get job "nodes" (VStr "")).

(** A computation that leaves the field [f] of the application alone. *)
Definition preserves {X A} (f : App → X) (m : M App A) : Prop :=
  ∀ x, invariant (λ a, f a = x) m.

(** No row of the table shows a terminal state. *)
Definition shows_no_terminal (a : App) : Prop :=
  Forall (λ r, DataTable.c_state r ∉ terminal_states) (DataTable.rows (table a)).

(** Toggling one identifier in a selection. *)
Definition toggle (k : string) (s : gset string) : gset string :=
  if bool_decide (k ∈ s) then s ∖ {[k]} else s ∪ {[k]}.

End Spec.

(** ** The scenarios of the specification *)

Module Scenario.

Import SltopApp.

(** A poll that succeeds with the job records [l]. *)
Definition poll (l : list (gmap string val)) : proc_outcome :=
  Exits 0 (Json (DObject (Some (JobList l)))) (Some "").

Definition job_pending : gmap string val :=
  {[ "job_id" := VInt 1; "job_state" := VStr "PENDING";
     "job_reason" := VStr "Resources" ]}.

(** Started 65 seconds before the clock reads 1000. *)
Definition job_running : gmap string val :=
  {[ "job_id" := VInt 2; "job_state" := VStr "RUNNING";
     "nodes" := VStr "node01"; "start_time" := VInt 935 ]}.

Definition job_completed : gmap string val :=
  {[ "job_id" := VInt 3; "job_state" := VStr "COMPLETED" ]}.

(** The table after a first poll, with the cursor moved to the second
    row, the one of job 2. *)
Definition two_rows : App :=
  let a := snd (refresh_jobs_async (poll [job_pending; job_running]) 1000 (init "alice")) in
  with_table (DataTable.move_cursor 1 (table a)) a.

(** Exit code 0 and a JSON object whose ["jobs"] member is a number, as
    in [{"jobs": 5}]. *)
Definition jobs_not_a_list : proc_outcome :=
  Exits 0 (Json (DObject (Some NotIterable))) (Some "").

(** The first poll puts job 1 on display, under the cursor. *)
Definition first_poll : list event :=
  [Tick; FetchReturns 0 (poll [job_pending]) 1000].

(** [scancel] exits with code 0; it writes nothing. *)
Definition scancel_done : proc_outcome := Exits 0 NotJson (Some "").

(** Job 1 is on display and a refresh is in flight when the cancel of the
    job under the cursor is confirmed. *)
Definition kill_during_refresh : list event :=
  first_poll ++ [Tick; ConfirmKill ["1"]].

(** [scancel] then returns with success before [squeue] does. *)
Definition cancel_during_refresh : list event :=
  kill_during_refresh ++ [CancelReturns 2 scancel_done].

(** The same cancel with no refresh in flight: its reconciliation is
    waiting for [squeue]. *)
Definition reconciling : list event :=
  first_poll ++ [ConfirmKill ["1"]; CancelReturns 1 scancel_done].

End Scenario.

(** ** Text: the [str] methods that the detail parser calls *)

Module Text.

(** A text is the list of its characters; an [ascii] holds the code points
    below 256. *)

(** [c.isspace()]: TAB to CR, FS to US, the space, NEL and NBSP. *)
Definition is_space (c : Ascii.ascii) : bool :=
  let n := Ascii.nat_of_ascii c in
  ((9 <=? n) && (n <=? 13)) || ((28 <=? n) && (n <=? 32))
  || (n =? 133) || (n =? 160).

(** The line boundaries of [str.splitlines]: LF, VT, FF, CR, FS, GS, RS
    and NEL. *)
Definition is_linebreak (c : Ascii.ascii) : bool :=
  let n := Ascii.nat_of_ascii c in
  ((10 <=? n) && (n <=? 13)) || ((28 <=? n) && (n <=? 30)) || (n =? 133).

(** [s.splitlines()]; [line] holds the characters of the current line,
    last first.  CR followed by LF is one boundary, and a boundary at the
    very end opens no further line. *)
Fixpoint splitlines_from (line : list Ascii.ascii) (s : list Ascii.ascii)
  : list (list Ascii.ascii) :=
  match s with
  | [] => match line with [] => [] | _ => [reverse line] end
  | c :: s' =>
    if is_linebreak c then
      reverse line ::
        match s' with
        | d :: s'' =>
          if bool_decide (Ascii.nat_of_ascii c = 13 ∧ Ascii.nat_of_ascii d = 10)
          then splitlines_from [] s''
          else splitlines_from [] s'
        | [] => splitlines_from [] s'
        end
    else splitlines_from (c :: line) s'
  end.

Definition splitlines (s : list Ascii.ascii) : list (list Ascii.ascii) :=
  splitlines_from [] s.

(** [s.lstrip()] and [s.strip()] *)
Fixpoint lstrip (s : list Ascii.ascii) : list Ascii.ascii :=
  match s with
  | c :: s' => if is_space c then lstrip s' else s
  | [] => []
  end.

Definition strip (s : list Ascii.ascii) : list Ascii.ascii :=
  reverse (lstrip (reverse (lstrip s))).

(** [s.split()]: the maximal runs of characters that are not white space;
    [word] holds the characters of the current run, last first. *)
Fixpoint split_from (word : list Ascii.ascii) (s : list Ascii.ascii)
  : list (list Ascii.ascii) :=
  match s with
  | [] => match word with [] => [] | _ => [reverse word] end
  | c :: s' =>
    if is_space c then
      match word with
      | [] => split_from [] s'
      | _ => reverse word :: split_from [] s'
      end
    else split_from (c :: word) s'
  end.

Definition split (s : list Ascii.ascii) : list (list Ascii.ascii) := split_from [] s.

(** The character "=". *)
Definition is_eq (c : Ascii.ascii) : Prop := Ascii.nat_of_ascii c = 61.

#[global] Instance is_eq_dec c : Decision (is_eq c).
Proof. unfold is_eq. apply _. Defined.

(** ["=" in part] *)
Definition contains_eq (part : list Ascii.ascii) : bool :=
  bool_decide (Exists is_eq part).

(** [part.split("=", 1)] for a [part] that contains "=": what is before
    the first "=" and what is after it. *)
Fixpoint split_eq (part : list Ascii.ascii) : list Ascii.ascii * list Ascii.ascii :=
  match part with
  | [] => ([], [])
  | c :: part' =>
    if bool_decide (is_eq c) then ([], part')
    else let '(k, v) := split_eq part' in (c :: k, v)
  end.

(** [sep.join(l)] *)
Fixpoint join (sep : string) (l : list string) : string :=
  match l with
  | [] => ""
  | [x] => x
  | x :: l' => x +:+ sep +:+ join sep l'
  end.

(** [posixpath.join(a, b)] *)
Definition path_join (a b : string) : string :=
  if String.prefix "/" b then b
  else if bool_decide (a = "")
          || bool_decide (last (String.list_ascii_of_string a) = Some (Ascii.ascii_of_nat 47))
       then a +:+ b
       else a +:+ "/" +:+ b.

(** A [dict] from strings to strings; it keeps the order in which its
    keys were first set. *)
Fixpoint dict_set (k v : string) (d : list (string * string)) : list (string * string) :=
  match d with
  | [] => [(k, v)]
  | (k', v') :: d' =>
    if bool_decide (k' = k) then (k, v) :: d' else (k', v') :: dict_set k v d'
  end.

(** [d.get(k)] *)
Fixpoint dict_get (k : string) (d : list (string * string)) : option string :=
  match d with
  | [] => None
  | (k', v') :: d' => if bool_decide (k' = k) then Some v' else dict_get k d'
  end.

(** A decimal digit. *)
Definition is_digit (c : Ascii.ascii) : bool :=
  (48 <=? Ascii.nat_of_ascii c) && (Ascii.nat_of_ascii c <=? 57).

End Text.

(** ** The screens above the job table *)

Module Screens.

Import Text SltopApp.

(** How a process that writes text turns out; [stdout] and [stderr] are
    [None] when their bytes do not decode. *)
Inductive text_outcome :=
| TextLaunchFails (e : exn)
| TextExits (returncode : Z) (stdout stderr : option string).

(** The entries that [get_job_details] appends to [sktop.log]. *)
Inductive details_log_entry :=
| ScontrolError (stderr : string)   (* "scontrol error: {stderr}" *)
| DetailsFailed (e : exn).          (* "Failed to get job details: {e}" *)

(** A screen pushed over the table, with the arguments of its
    constructor; [ConfirmScreen] carries the targets that its callback
    [check_confirm] has captured. *)
Inductive screen :=
| ConfirmScreen (message : string) (targets : list string)
| LogScreen (job_id log_path : string)
| InspectScreen (job_id : string) (details : list (string * string)).

(** The application with its screen stack (the top screen first) and the
    log entries of the detail queries. *)
Record Ui := {
  app : App;
  details_log : list details_log_entry;
  screen_stack : list screen
}.

Definition with_app (a : App) (u : Ui) : Ui :=
  {| app := a; details_log := details_log u; screen_stack := screen_stack u |}.

Definition with_details_log (l : list details_log_entry) (u : Ui) : Ui :=
  {| app := app u; details_log := l; screen_stack := screen_stack u |}.

Definition with_screen_stack (st : list screen) (u : Ui) : Ui :=
  {| app := app u; details_log := details_log u; screen_stack := st |}.

(** The application on its own, no screen pushed. *)
Definition bare (a : App) : Ui :=
  {| app := a; details_log := []; screen_stack := [] |}.

(** A method of the application, run on the application inside [Ui]. *)
Definition on_app {A} (m : M App A) : M Ui A :=
  λ u, let '(r, a') := m (app u) in (r, with_app a' u).

(** [self.push_screen(s)] *)
Definition push_screen (s : screen) : M Ui unit :=
  modify (λ u, with_screen_stack (s :: screen_stack u) u).

(** [create_subprocess_exec] and [communicate] for a process whose output
    is read as text. *)
Definition run_text_process (cmd : list string) (o : text_outcome)
  : M Ui (Z * option string * option string) :=
  do! on_app (modify (λ a, with_exec_calls (exec_calls a ++ [cmd]) a)) in
  match o with
  | TextLaunchFails e => raise e
  | TextExits rc out err => ret (rc, out, err)
  end.

(** [b.decode()] *)
Definition decode_text (b : option string) : M Ui string :=
  match b with
  | Some s => ret s
  | None => raise UnicodeDecodeError
  end.

Definition log_details_error (e : details_log_entry) : M Ui unit :=
  modify (λ u, with_details_log (details_log u ++ [e]) u).

(** The body of the inner loop of [get_job_details] (l.107-109). *)
Definition add_part (details : list (string * string)) (part : list Ascii.ascii)
  : list (string * string) :=
  if contains_eq part then
    let '(key, value) := split_eq part in
    dict_set (String.string_of_list_ascii key) (String.string_of_list_ascii value)
             details
  else details.

(** The inner loop of [get_job_details] (l.105-109): the parts of one
    line. *)
Definition parse_line (details : list (string * string)) (line : list Ascii.ascii)
  : list (string * string) :=
  foldl add_part details (split (strip line)).

(** The loops of [get_job_details] (l.100-110) on the decoded output. *)
Definition parse_details (output : string) : list (string * string) :=
  foldl parse_line [] (splitlines (String.list_ascii_of_string output)).

(** [JobManager.get_job_details] (l.84-113), given the outcome of the
    [scontrol] process. *)
Definition get_job_details (job_id : string) (o : text_outcome)
  : M Ui (list (string * string)) :=
  let cmd := ["scontrol"; "show"; "job"; job_id] in
  try_except
    (let! p := run_text_process cmd o in
     let '(returncode, stdout, stderr) := p in
     if bool_decide (returncode ≠ 0%Z) then
       let! msg := decode_text stderr in
       do! log_details_error (ScontrolError msg) in
       ret []
     else
       let! output := decode_text stdout in
       ret (parse_details output))
    (λ e,
     do! log_details_error (DetailsFailed e) in
     ret []).

(** The identifier of the row under the cursor, [None] where the actions
    return at once (l.452-456, l.475-479). *)
Definition cursor_job_id : M Ui (option string) :=
  try_except
    (let! tb := gets (λ u, table (app u)) in
     let! job_id := lift (DataTable.cursor_key tb) in
     ret (Some job_id))
    (λ _, ret None).

(** The path of the log that [action_view_logs] opens (l.461-468). *)
Definition resolve_log_path (job_id : string) (details : list (string * string))
  : string :=
  let fallback :=
    let work_dir := default "." (dict_get "WorkDir" details) in
    path_join work_dir ("slurm-" +:+ job_id +:+ ".out") in
  match dict_get "StdOut" details with
  | None => fallback
  | Some log_path =>
    if bool_decide (log_path = "") || bool_decide (log_path = "(null)")
    then fallback else log_path
  end.

(** [action_view_logs] (l.449-470), run from its start to its end. *)
Definition action_view_logs (o : text_outcome) : M Ui unit :=
  let! cur := cursor_job_id in
  match cur with
  | None => ret tt
  | Some job_id =>
    let! details := get_job_details job_id o in
    push_screen (LogScreen job_id (resolve_log_path job_id details))
  end.

(** [action_inspect_job] (l.472-482), run from its start to its end. *)
Definition action_inspect_job (o : text_outcome) : M Ui unit :=
  let! cur := cursor_job_id in
  match cur with
  | None => ret tt
  | Some job_id =>
    let! details := get_job_details job_id o in
    push_screen (InspectScreen job_id details)
  end.

(** The text that [InspectScreen.compose] shows (l.210). *)
Definition inspect_text (details : list (string * string)) : string :=
  join (String (Ascii.ascii_of_nat 10) "")
       ((λ kv, fst kv +:+ ": " +:+ snd kv) <$> details).

(** [action_kill_job] (l.415-437) with the screen it pushes. *)
Definition action_kill_job : M Ui unit :=
  let! asked := on_app SltopApp.action_kill_job in
  match asked with
  | None => ret tt
  | Some targets =>
    push_screen
      (ConfirmScreen
         ("Are you sure you want to cancel " +:+ pretty (length targets) +:+ " job(s)?")
         targets)
  end.

(** [ConfirmScreen.on_button_pressed] (l.130-134) followed by the callback
    [check_confirm] (l.430-432): the screen is dismissed with [True] for the
    button "yes" and [False] for any other, and a worker of [do_kill_jobs]
    is started in the first case. *)
Definition on_button_pressed (button_id : string) : M Ui unit :=
  let! stack := gets screen_stack in
  match stack with
  | ConfirmScreen _ targets :: below =>
    do! modify (with_screen_stack below) in
    let confirmed := bool_decide (button_id = "yes") in
    if confirmed then on_app (start_do_kill_jobs targets) else ret tt
  | _ => ret tt
  end.

(** An event of the application, while screens may be open. *)
Definition app_step (mode : exclusive_mode) (e : event) (u : Ui) : Ui :=
  with_app (step mode e (app u)) u.

End Screens.

(** ** Vocabulary for the details of a job *)

Module DetailSpec.

Import Text Screens.

(** The key and the value of each part of the output that contains "=",
    in the order of the output. *)
Definition key_values (output : string) : list (string * string) :=
  (λ part, let '(k, v) := split_eq part in
           (String.string_of_list_ascii k, String.string_of_list_ascii v))
    <$> filter (λ part, contains_eq part = true)
               (split (String.list_ascii_of_string output)).

(** The value that comes last for the key [k]. *)
Definition last_value (k : string) (kvs : list (string * string)) : option string :=
  snd <$> last (filter (λ kv, fst kv = k) kvs).

(** A string without white space, and one that has no "=" either. *)
Definition no_space (s : string) : Prop :=
  Forall (λ c, is_space c = false) (String.list_ascii_of_string s).

Definition plain_key (s : string) : Prop :=
  Forall (λ c, is_space c = false ∧ ¬ is_eq c) (String.list_ascii_of_string s).

(** A separator: white space, at least one character. *)
Definition blank (s : string) : Prop :=
  s ≠ "" ∧ Forall (λ c, is_space c = true) (String.list_ascii_of_string s).

(** Details written the way [scontrol] writes them: [key=value] parts
    with [sep] between them. *)
Definition render_details (sep : string) (details : list (string * string)) : string :=
  join sep ((λ kv, fst kv +:+ "=" +:+ snd kv) <$> details).

End DetailSpec.
Import SltopApp Spec.

(** * Properties *)

(** ** Invariants of computations *)

Section Invariants.

Context {S : Type} (P : S → Prop).

Lemma invariant_ret {A} (x : A) : invariant P (ret x).
Proof. by intros s. Qed.

Lemma invariant_raise {A} e : invariant P (@raise S A e).
Proof. by intros s. Qed.

Lemma invariant_gets {A} (f : S → A) : invariant P (gets f).
Proof. by intros s. Qed.

Lemma invariant_lift {A} (r : result A) : invariant P (lift r).
Proof. by intros s. Qed.

Lemma invariant_modify (g : S → S) : (∀ s, P s → P (g s)) → invariant P (modify g).
Proof. intros Hg s Hs. by apply Hg. Qed.

Lemma invariant_bind {A B} (m : M S A) (k : A → M S B) :
  invariant P m → (∀ x, invariant P (k x)) → invariant P (bind m k).
Proof.
  intros Hm Hk s Hs. unfold bind. specialize (Hm s Hs).
  destruct (m s) as [[x|e] s']; simpl in *; [by apply Hk | done].
Qed.

Lemma invariant_try_except {A} (m : M S A) (h : exn → M S A) :
  invariant P m → (∀ e, invariant P (h e)) → invariant P (try_except m h).
Proof.
  intros Hm Hh s Hs. unfold try_except. specialize (Hm s Hs).
  destruct (m s) as [[x|e] s']; simpl in *; [done | by apply Hh].
Qed.

Lemma invariant_for_each {A} (body : A → M S unit) (l : list A) :
  (∀ x, invariant P (body x)) → invariant P (for_each body l).
Proof.
  intros Hb. induction l as [|x l IH]; simpl.
  - apply invariant_ret.
  - apply invariant_bind; [apply Hb | intros _; apply IH].
Qed.

End Invariants.

(** Splits a computation along its structure; what is left are the
    updates of the state. *)
Ltac invariant_step :=
  first
    [ apply invariant_ret | apply invariant_raise | apply invariant_gets
    | apply invariant_lift
    | apply invariant_bind; [|intros ?]
    | apply invariant_try_except; [|intros ?]
    | apply invariant_for_each; intros ?
    | case_match | case_bool_decide ].

Create HintDb app discriminated.
#[local] Hint Unfold JobManager.get_jobs JobManager.cancel_jobs run_process
  decode json_loads data_get_jobs logger_error notify table_add_row
  add_job_row capture_cursor restore_cursor merge refresh_jobs_async
  do_kill_jobs start_worker refresh_jobs on_mount action_refresh_now
  action_toggle_select action_kill_job after_cancel start_do_kill_jobs : app.

Lemma preserves_eq {X A} (f : App → X) (m : M App A) a :
  preserves f m → f (snd (m a)) = f a.
Proof. intros H. by apply (H (f a)). Qed.

Ltac frame :=
  intros ?; autounfold with app; repeat invariant_step;
  try (apply invariant_modify; intros ? ?; assumption).

(** ** Elapsed time *)

Lemma append_empty_r (s : string) : s +:+ "" = s.
Proof. induction s as [|c s IH]; [done|]. change (String c (s +:+ "") = String c s). by rewrite IH. Qed.

Lemma elapsed_split (e : Z) :
  (0 ≤ e)%Z →
  ((e `div` 60) `div` 60 = e `div` 3600)%Z ∧
  (((e `div` 60) `div` 60) `div` 24 = e `div` 86400)%Z.
Proof.
  intros He. split.
  - rewrite Z.div_div by lia. done.
  - rewrite !Z.div_div by lia. done.
Qed.

(** C5: [format_time_used] returns "0:00" for every state other than
    RUNNING, whatever the start time; for a RUNNING job it returns the
    elapsed time [now - start_time], taken as zero when negative (which
    reads "0:00"), written with its leading zero units dropped; 90 seconds
    read "1:30" and 3661 seconds read "1:01:01". *)
Theorem format_time_used_spec (now : Z) :
  (∀ start_time state,
     state ≠ VStr "RUNNING" → format_time_used now start_time state = Ok "0:00") ∧
  (∀ st, format_time_used now (VInt st) (VStr "RUNNING")
         = Ok (elapsed_format (0 `max` (now - st))%Z)) ∧
  elapsed_format 0 = "0:00" ∧
  format_time_used now (VInt (now - 90)) (VStr "RUNNING") = Ok "1:30" ∧
  format_time_used now (VInt (now - 3661)) (VStr "RUNNING") = Ok "1:01:01".
Proof.
  assert (Hrun : ∀ st, format_time_used now (VInt st) (VStr "RUNNING")
         = Ok (elapsed_format (0 `max` (now - st))%Z)).
  { intros st. unfold format_time_used.
    rewrite bool_decide_eq_false_2 by (intros H; by apply H).
    case_bool_decide as Hneg.
    - by rewrite Z.max_l by lia.
    - rewrite Z.max_r by lia.
      set (e := (now - st)%Z) in *.
      destruct (elapsed_split e) as [Hh Hd]; [lia|].
      unfold divmod, elapsed_format, units. rewrite Hd, Hh.
      assert (0 ≤ e `div` 86400)%Z by (apply Z.div_pos; lia).
      assert (0 ≤ (e `div` 3600) `mod` 24)%Z by (apply Z.mod_pos_bound; lia).
      cbn [drop_zero_units length].
      repeat case_bool_decide; try lia; cbn [render render_rest];
        by rewrite ?append_empty_r. }
  split; [|split; [exact Hrun|split; [done|split]]].
  - intros start_time state Hs. unfold format_time_used.
    by rewrite bool_decide_eq_true_2.
  - rewrite Hrun. replace (now - (now - 90))%Z with 90%Z by lia. done.
  - rewrite Hrun. replace (now - (now - 3661))%Z with 3661%Z by lia. done.
Qed.

Lemma format_time_used_spec_witness :
  format_time_used 1000 (VStr "soon") (VStr "PENDING") = Ok "0:00".
Proof. apply (proj1 (format_time_used_spec 1000)). discriminate. Defined.

(** ** What a computation leaves alone *)

Lemma get_jobs_selected o : preserves selected_jobs (JobManager.get_jobs o).
Proof. frame. Qed.

Lemma get_jobs_table o : preserves table (JobManager.get_jobs o).
Proof. frame. Qed.

Lemma get_jobs_workers o : preserves workers (JobManager.get_jobs o).
Proof. frame. Qed.

Lemma get_jobs_exited o : preserves exited (JobManager.get_jobs o).
Proof. frame. Qed.

Lemma cancel_jobs_selected ids o : preserves selected_jobs (JobManager.cancel_jobs ids o).
Proof. frame. Qed.

Lemma cancel_jobs_workers ids o : preserves workers (JobManager.cancel_jobs ids o).
Proof. frame. Qed.

Lemma merge_selected now jobs : preserves selected_jobs (merge now jobs).
Proof. frame. Qed.

Lemma merge_workers now jobs : preserves workers (merge now jobs).
Proof. frame. Qed.

Lemma merge_exec_calls now jobs : preserves exec_calls (merge now jobs).
Proof. frame. Qed.

Lemma refresh_selected o now : preserves selected_jobs (refresh_jobs_async o now).
Proof. frame. Qed.

Lemma refresh_workers o now : preserves workers (refresh_jobs_async o now).
Proof. frame. Qed.

Lemma refresh_jobs_selected mode : preserves selected_jobs (refresh_jobs mode).
Proof. frame. Qed.

Lemma refresh_jobs_table mode : preserves table (refresh_jobs mode).
Proof. frame. Qed.

(** ** The gateway *)

(** [get_jobs] always returns; it touches the error log and the record of
    the launched commands only. *)
Lemma get_jobs_returns o a :
  ∃ jobs log,
    JobManager.get_jobs o a
    = (Ok jobs,
       with_error_log (error_log a ++ log)
         (with_exec_calls (exec_calls a ++ [["squeue"; "-u"; user a; "--json"]]) a)).
Proof.
  unfold JobManager.get_jobs, bind, try_except, gets, run_process, modify,
    decode, json_loads, data_get_jobs, logger_error, ret, raise.
  destruct o as [e | rc out err]; simpl.
  - by eexists _, [_].
  - case_bool_decide.
    + destruct err; simpl; by eexists _, [_].
    + destruct out as [| | [[v|]|]]; simpl;
        first [ by eexists _, [_]
              | eexists _, []; by rewrite app_nil_r; destruct a ].
Qed.

(** C7, as the code has it: [get_jobs] never raises.  When the job query
    does not start, exits with a non-zero code, or writes output that does
    not decode, is not JSON or is JSON other than an object, it returns the
    empty list, the same value as for a poll that found no job, and appends
    one entry to the error log.  What a JSON object holds is not checked:
    its ["jobs"] member is returned as it is, the empty list when there is
    none, and nothing is logged. *)
Theorem get_jobs_never_raises (o : proc_outcome) (a : App) :
  (∃ jobs, fst (JobManager.get_jobs o a) = Ok jobs) ∧
  (poll_failed o →
     fst (JobManager.get_jobs o a) = Ok (JobList []) ∧
     (∃ entry, error_log (snd (JobManager.get_jobs o a)) = error_log a ++ [entry]) ∧
     fst (JobManager.get_jobs o a)
     = fst (JobManager.get_jobs (Exits 0 (Json (DObject (Some (JobList [])))) (Some "")) a)) ∧
  (∀ member err, o = Exits 0 (Json (DObject member)) err →
     fst (JobManager.get_jobs o a) = Ok (default (JobList []) member) ∧
     error_log (snd (JobManager.get_jobs o a)) = error_log a).
Proof.
  split_and!.
  - destruct (get_jobs_returns o a) as (jobs & log & ->). by exists jobs.
  - unfold poll_failed, JobManager.get_jobs, bind, try_except, gets,
      run_process, modify, decode, json_loads, data_get_jobs, logger_error,
      ret, raise.
    destruct o as [e | rc out err]; simpl.
    + intros _. split_and!; [done | by eexists | done].
    + intros Hfail. case_bool_decide as Hrc.
      * destruct err; simpl; (split_and!; [done | by eexists | done]).
      * destruct Hfail as [? | [-> | [-> | ->]]]; [done | ..]; simpl;
          (split_and!; [done | by eexists | done]).
  - intros member err ->.
    unfold JobManager.get_jobs, bind, try_except, gets, run_process, modify,
      json_loads, data_get_jobs, ret.
    by destruct member.
Qed.

Lemma get_jobs_never_raises_witness :
  fst (JobManager.get_jobs (Exits 1 NotJson (Some "slurm_load_jobs error")) (init "alice"))
  = Ok (JobList []) ∧
  fst (JobManager.get_jobs (Scenario.poll [Scenario.job_pending]) (init "alice"))
  = Ok (JobList [Scenario.job_pending]).
Proof.
  split.
  - apply (proj1 (proj2 (get_jobs_never_raises _ _))). simpl. left. lia.
  - apply (proj2 (proj2 (get_jobs_never_raises _ (init "alice")))
             (Some (JobList [Scenario.job_pending])) (Some "")).
    reflexivity.
Defined.

(** The claim C7 fails on output that parses but has not the shape of a
    job list: from [{"jobs": 5}] with exit code 0, [get_jobs] returns the
    number, which is not the value of a poll without jobs, and logs
    nothing; the refresh cycle that iterates over it raises, and the
    application ends. *)
Lemma jobs_member_not_checked :
  fst (JobManager.get_jobs Scenario.jobs_not_a_list (init "alice")) = Ok NotIterable ∧
  fst (JobManager.get_jobs Scenario.jobs_not_a_list (init "alice"))
  ≠ fst (JobManager.get_jobs (Scenario.poll []) (init "alice")) ∧
  error_log (snd (JobManager.get_jobs Scenario.jobs_not_a_list (init "alice"))) = [] ∧
  fst (refresh_jobs_async Scenario.jobs_not_a_list 1000 (init "alice")) = Raise TypeError ∧
  exited (run CancelGroup [Tick; FetchReturns 0 Scenario.jobs_not_a_list 1000] (init "alice"))
  = Some TypeError ∧
  exited (run CancelGroup [Tick; FetchReturns 0 (Exits 0 NotJson (Some "")) 1000] (init "alice"))
  = None.
Proof. split_and!; by vm_compute. Qed.

(** [cancel_jobs] reports success exactly when the command was given an
    identifier and exited with code zero. *)
Lemma cancel_jobs_success ids o a :
  cancel_succeeds ids o →
  JobManager.cancel_jobs ids o a
  = (Ok true, with_exec_calls (exec_calls a ++ ["scancel" :: ids]) a).
Proof.
  intros [Hids (out & err & ->)].
  unfold JobManager.cancel_jobs. rewrite bool_decide_eq_false_2 by done.
  done.
Qed.

Lemma cancel_jobs_failure ids o a :
  ¬ cancel_succeeds ids o →
  ∃ log,
    JobManager.cancel_jobs ids o a
    = (Ok false,
       with_error_log (error_log a ++ log)
         (with_exec_calls
            (exec_calls a ++ (if bool_decide (ids = []) then [] else ["scancel" :: ids]))
            a)).
Proof.
  intros Hfail. unfold cancel_succeeds in Hfail.
  unfold JobManager.cancel_jobs, bind, try_except, run_process, modify,
    decode, logger_error, ret, raise.
  case_bool_decide as Hids.
  - exists []. rewrite !app_nil_r. by destruct a.
  - destruct o as [e | rc out err]; simpl.
    + by exists [CancelFailed e].
    + case_bool_decide as Hrc.
      * destruct err; simpl; by eexists [_].
      * destruct Hfail. split; [done|]. exists out, err.
        f_equal. destruct (decide (rc = 0%Z)); [done|]. by destruct Hrc.
Qed.

(** ** The cancel executor *)

(** C4: when the cancel command reports success, [do_kill_jobs] clears the
    selection and then runs a refresh cycle, whose [squeue] is launched
    after [scancel]; when it reports failure, the selection and the table
    stay as they were, an error notification is posted and no exception
    leaves the coroutine. *)
Theorem do_kill_jobs_outcomes (job_ids : list string)
    (cancel_o fetch_o : proc_outcome) (now : Z) (a : App) :
  (cancel_succeeds job_ids cancel_o →
     do_kill_jobs job_ids cancel_o fetch_o now a
     = refresh_jobs_async fetch_o now
         (with_selected ∅
            (with_notifications
               (notifications a
                ++ [{| message := "Cancelled " +:+ pretty (length job_ids) +:+ " jobs.";
                       level := Information |}])
               (with_exec_calls (exec_calls a ++ ["scancel" :: job_ids]) a))) ∧
     selected_jobs (snd (do_kill_jobs job_ids cancel_o fetch_o now a)) = ∅ ∧
     exec_calls (snd (do_kill_jobs job_ids cancel_o fetch_o now a))
     = exec_calls a ++ ["scancel" :: job_ids; ["squeue"; "-u"; user a; "--json"]]) ∧
  (¬ cancel_succeeds job_ids cancel_o →
     fst (do_kill_jobs job_ids cancel_o fetch_o now a) = Ok tt ∧
     selected_jobs (snd (do_kill_jobs job_ids cancel_o fetch_o now a)) = selected_jobs a ∧
     table (snd (do_kill_jobs job_ids cancel_o fetch_o now a)) = table a ∧
     notifications (snd (do_kill_jobs job_ids cancel_o fetch_o now a))
     = notifications a ++ [{| message := "Failed to cancel some jobs."; level := Error |}] ∧
     exited (snd (do_kill_jobs job_ids cancel_o fetch_o now a)) = exited a ∧
     ["squeue"; "-u"; user a; "--json"]
       ∉ drop (length (exec_calls a))
              (exec_calls (snd (do_kill_jobs job_ids cancel_o fetch_o now a)))).
Proof.
  split.
  - intros Hok.
    assert (Heq : do_kill_jobs job_ids cancel_o fetch_o now a
                  = refresh_jobs_async fetch_o now
         (with_selected ∅
            (with_notifications
               (notifications a
                ++ [{| message := "Cancelled " +:+ pretty (length job_ids) +:+ " jobs.";
                       level := Information |}])
               (with_exec_calls (exec_calls a ++ ["scancel" :: job_ids]) a)))).
    { unfold do_kill_jobs, bind at 1. by rewrite (cancel_jobs_success _ _ _ Hok). }
    split_and!; [done | ..]; rewrite Heq.
    + by rewrite (preserves_eq _ _ _ (refresh_selected _ _)).
    + unfold refresh_jobs_async, bind.
      destruct (get_jobs_returns fetch_o
        (with_selected ∅
            (with_notifications
               (notifications a
                ++ [{| message := "Cancelled " +:+ pretty (length job_ids) +:+ " jobs.";
                       level := Information |}])
               (with_exec_calls (exec_calls a ++ ["scancel" :: job_ids]) a))))
        as (jobs & log & ->).
      rewrite (preserves_eq _ _ _ (merge_exec_calls _ _)). simpl.
      by rewrite <- app_assoc.
  - intros Hfail.
    destruct (cancel_jobs_failure _ _ a Hfail) as [log Hc].
    unfold do_kill_jobs, bind. rewrite Hc. simpl.
    split_and!; try done.
    rewrite drop_app_length. case_bool_decide; [apply not_elem_of_nil|].
    rewrite list_elem_of_singleton. discriminate.
Qed.

Lemma do_kill_jobs_outcomes_witness :
  selected_jobs
    (snd (do_kill_jobs ["42"] (Exits 0 NotJson (Some "")) (LaunchFails OSError) 0
            (with_selected {["42"]} (init "alice")))) = ∅
  ∧ notifications
      (snd (do_kill_jobs ["42"] (Exits 1 NotJson (Some "Invalid job id"))
              (LaunchFails OSError) 0 (with_selected {["42"]} (init "alice"))))
    = [{| message := "Failed to cancel some jobs."; level := Error |}].
Proof.
  split.
  - apply (proj1 (do_kill_jobs_outcomes _ _ _ _ _)).
    split; [done | by eexists _, _].
  - apply (proj2 (do_kill_jobs_outcomes ["42"] (Exits 1 NotJson (Some "Invalid job id"))
                    (LaunchFails OSError) 0 (with_selected {["42"]} (init "alice")))).
    intros [_ (out & err & Heq)]. discriminate Heq.
Defined.

(** ** The event loop *)

Lemma cancel_succeeds_or ids o : cancel_succeeds ids o ∨ ¬ cancel_succeeds ids o.
Proof.
  unfold cancel_succeeds.
  destruct ids as [|i ids]; [right; by intros [? _]|].
  destruct o as [e | rc out err]; [right; by intros [_ (? & ? & ?)]|].
  destruct (decide (rc = 0%Z)) as [-> | Hrc].
  - left. split; [done | by eexists _, _].
  - right. intros [_ (? & ? & ?)]. congruence.
Qed.

Lemma run_invariant (P : App → Prop) mode :
  (∀ e a, P a → P (step mode e a)) →
  ∀ events a, P a → P (run mode events a).
Proof.
  intros Hstep events. unfold run.
  induction events as [|e events IH]; intros a Ha; simpl; [done|].
  apply IH. by apply Hstep.
Qed.

Lemma resume_selected w m a :
  selected_jobs (resume w m a) = selected_jobs (snd (m a)).
Proof. unfold resume. by destruct (m a) as [[[st|]|e] a']. Qed.

Lemma resume_table w m a : table (resume w m a) = table (snd (m a)).
Proof. unfold resume. by destruct (m a) as [[[st|]|e] a']. Qed.

Lemma start_do_kill_jobs_selected ids : preserves selected_jobs (start_do_kill_jobs ids).
Proof. frame. Qed.

Lemma start_do_kill_jobs_table ids : preserves table (start_do_kill_jobs ids).
Proof. frame. Qed.

Lemma action_toggle_select_table mode : preserves table (action_toggle_select mode).
Proof. frame. Qed.

Lemma cancel_jobs_table ids o : preserves table (JobManager.cancel_jobs ids o).
Proof. frame. Qed.

Lemma after_cancel_table ids b : preserves table (after_cancel ids b).
Proof. frame. Qed.

(** The continuation of [do_kill_jobs] that the event loop runs when
    [scancel] has returned. *)
Lemma kill_continuation_table ids o :
  preserves table
    (let! success := JobManager.cancel_jobs ids o in
     let! goes_on := after_cancel ids success in
     ret (if goes_on then Some AwaitGetJobsAfterCancel else None)).
Proof. frame. Qed.

Lemma kill_continuation_failure ids o a :
  ¬ cancel_succeeds ids o →
  selected_jobs
    (snd ((let! success := JobManager.cancel_jobs ids o in
           let! goes_on := after_cancel ids success in
           ret (if goes_on then Some AwaitGetJobsAfterCancel else None)) a))
  = selected_jobs a.
Proof.
  intros Hfail. destruct (cancel_jobs_failure _ _ a Hfail) as [log Hc].
  unfold bind. by rewrite Hc.
Qed.

Lemma kill_continuation_success ids o a :
  cancel_succeeds ids o →
  selected_jobs
    (snd ((let! success := JobManager.cancel_jobs ids o in
           let! goes_on := after_cancel ids success in
           ret (if goes_on then Some AwaitGetJobsAfterCancel else None)) a))
  = ∅.
Proof.
  intros Hok. unfold bind. by rewrite (cancel_jobs_success _ _ _ Hok).
Qed.

(** C8: a refresh cycle leaves the selection set as it was, whatever the
    new snapshot holds; of all the events of the application only the
    toggle key and the return of a successful cancel, which empties it,
    change it. *)
Theorem selection_frame (mode : exclusive_mode) :
  (∀ o now a, selected_jobs (snd (refresh_jobs_async o now a)) = selected_jobs a) ∧
  (∀ e a,
     selected_jobs (step mode e a) = selected_jobs a
     ∨ e = KeySpace
     ∨ ∃ w o ids,
         e = CancelReturns w o ∧ worker_stage w a = Some (AwaitCancel ids)
         ∧ cancel_succeeds ids o ∧ selected_jobs (step mode e a) = ∅).
Proof.
  split.
  - intros o now a. apply preserves_eq, refresh_selected.
  - intros e a. unfold step. case_bool_decide; [by left|].
    destruct e as [| | |targets|w o|w o now].
    + left. apply preserves_eq, refresh_jobs_selected.
    + left. apply preserves_eq, refresh_jobs_selected.
    + by right; left.
    + left. apply preserves_eq, start_do_kill_jobs_selected.
    + destruct (worker_stage w a) as [[|ids|]|] eqn:Hw; try by left.
      rewrite resume_selected.
      destruct (cancel_succeeds_or ids o) as [Hok | Hfail].
      * right; right. exists w, o, ids. split_and!; try done.
        by apply kill_continuation_success.
      * left. by apply kill_continuation_failure.
    + left.
      destruct (worker_stage w a) as [[|ids|]|]; try done;
        rewrite resume_selected;
        apply (preserves_eq selected_jobs (do! refresh_jobs_async o now in ret None));
        frame.
Qed.

(** ** Rebuilding the table *)

Lemma table_add_row_eq r a :
  table_add_row r a
  = match DataTable.add_row r (table a) with
    | Ok tb' => (Ok tt, with_table tb' a)
    | Raise e => (Raise e, a)
    end.
Proof.
  unfold table_add_row, bind, gets, lift, modify.
  by destruct (DataTable.add_row r (table a)).
Qed.

Lemma capture_cursor_returns a : ∃ k, capture_cursor a = (Ok k, a).
Proof.
  unfold capture_cursor, try_except, bind, gets, lift, ret.
  case_bool_decide; [|by eexists].
  destruct (DataTable.cursor_key (table a)); by eexists.
Qed.

Lemma capture_cursor_key a k :
  DataTable.cursor_key (table a) = Ok k → capture_cursor a = (Ok (Some k), a).
Proof.
  intros Hk. unfold capture_cursor, try_except, bind, gets, lift, ret.
  rewrite Hk. rewrite bool_decide_eq_true_2; [done|].
  unfold DataTable.cursor_key in Hk. unfold DataTable.row_count.
  destruct (DataTable.rows (table a) !! DataTable.cursor_row (table a)) eqn:Hl;
    [|done].
  apply lookup_lt_Some in Hl. lia.
Qed.

Lemma restore_cursor_eq k a :
  restore_cursor k a
  = (Ok tt,
     match k with
     | Some key =>
       match DataTable.get_row_index key (table a) with
       | Ok i => with_table (DataTable.move_cursor i (table a)) a
       | Raise _ => a
       end
     | None => a
     end).
Proof.
  destruct k as [key|]; [|done].
  unfold restore_cursor, try_except, bind, gets, lift, modify, ret.
  by destruct (DataTable.get_row_index key (table a)).
Qed.

Lemma restore_cursor_rows k a :
  DataTable.rows (table (snd (restore_cursor k a))) = DataTable.rows (table a).
Proof.
  rewrite restore_cursor_eq. simpl. destruct k as [key|]; [|done].
  by destruct (DataTable.get_row_index key (table a)).
Qed.

(** The rebuild starts from the empty table, with the key that was under
    the cursor in hand. *)
Lemma merge_unfold now jobs a :
  ∃ k, capture_cursor a = (Ok k, a) ∧
    merge now jobs a
    = (do! match jobs with
           | JobList l => for_each (add_job_row now) l
           | NotIterable => raise TypeError
           end in
       restore_cursor k) (with_table DataTable.empty a).
Proof.
  destruct (capture_cursor_returns a) as [k Hk]. exists k. split; [done|].
  unfold merge. unfold bind at 1. rewrite Hk. done.
Qed.

Lemma refresh_unfold o now a :
  ∃ jobs a1,
    JobManager.get_jobs o a = (Ok jobs, a1) ∧ table a1 = table a
    ∧ selected_jobs a1 = selected_jobs a
    ∧ refresh_jobs_async o now a = merge now jobs a1.
Proof.
  destruct (get_jobs_returns o a) as (jobs & log & Hg).
  eexists jobs, _. split; [exact Hg|]. split_and!; try done.
  unfold refresh_jobs_async, bind. by rewrite Hg.
Qed.

Lemma add_job_row_no_terminal now job :
  invariant shows_no_terminal (add_job_row now job).
Proof.
  unfold add_job_row.
  apply invariant_bind; [apply invariant_lift|]. intros time_used.
  case_bool_decide as Hstate; [apply invariant_ret|].
  apply invariant_bind; [apply invariant_gets|]. intros selected a Ha.
  rewrite table_add_row_eq. unfold DataTable.add_row.
  case_bool_decide; [done|]. unfold shows_no_terminal in *. simpl.
  apply Forall_app. split; [done|]. by constructor.
Qed.

Lemma merge_no_terminal now jobs a : shows_no_terminal (snd (merge now jobs a)).
Proof.
  destruct (merge_unfold now jobs a) as (k & _ & ->).
  apply invariant_bind.
  - destruct jobs; [|apply invariant_raise].
    apply invariant_for_each. intros job. apply add_job_row_no_terminal.
  - intros _ s Hs. unfold shows_no_terminal. by rewrite restore_cursor_rows.
  - by apply Forall_nil.
Qed.

Lemma refresh_no_terminal o now a :
  shows_no_terminal (snd (refresh_jobs_async o now a)).
Proof.
  destruct (refresh_unfold o now a) as (jobs & a1 & _ & _ & _ & ->).
  apply merge_no_terminal.
Qed.

(** C3: after a poll cycle, from whatever table it started, no row of the
    table shows a state of the terminal set; this holds in every state
    that the application reaches. *)
Theorem no_terminal_row (mode : exclusive_mode) :
  (∀ o now a,
     Forall (λ r, DataTable.c_state r ∉ terminal_states)
            (DataTable.rows (table (snd (refresh_jobs_async o now a))))) ∧
  (∀ events u,
     Forall (λ r, DataTable.c_state r ∉ terminal_states)
            (DataTable.rows (table (run mode events (init u))))).
Proof.
  split; [apply refresh_no_terminal|].
  intros events u. apply (run_invariant shows_no_terminal); [|by apply Forall_nil].
  clear. intros e a Ha. unfold step. case_bool_decide; [done|].
  unfold shows_no_terminal in *.
  destruct e as [| | |targets|w o|w o now].
  - by rewrite (preserves_eq _ _ _ (refresh_jobs_table _)).
  - by rewrite (preserves_eq _ _ _ (refresh_jobs_table _)).
  - by rewrite (preserves_eq _ _ _ (action_toggle_select_table _)).
  - by rewrite (preserves_eq _ _ _ (start_do_kill_jobs_table _)).
  - destruct (worker_stage w a) as [[|ids|]|]; try done.
    rewrite resume_table.
    by rewrite (preserves_eq _ _ _ (kill_continuation_table _ _)).
  - assert (Hr : shows_no_terminal
                   (snd ((do! refresh_jobs_async o now in ret (@None stage)) a))).
    { unfold bind. pose proof (refresh_no_terminal o now a) as Hn.
      by destruct (refresh_jobs_async o now a) as [[[]|e] a']. }
    destruct (worker_stage w a) as [[|ids|]|]; try done;
      by rewrite resume_table.
Qed.

Lemma format_time_used_typed now job :
  typed_start job →
  ∃ t, format_time_used now (get job "start_time" (VInt 0)) (job_state job) = Ok t.
Proof.
  intros Ht. unfold format_time_used.
  case_bool_decide as Hs; [by eexists|].
  destruct Ht as [z ->].
  { destruct (decide (job_state job = VStr "RUNNING")); [done | by destruct Hs]. }
  unfold divmod. repeat case_bool_decide; by eexists.
Qed.

Lemma surviving_cons job l :
  surviving (job :: l)
  = if bool_decide (job_state job ∈ terminal_states) then surviving l
    else job :: surviving l.
Proof.
  unfold surviving. rewrite filter_cons.
  case_bool_decide; case_decide; done.
Qed.

(** The loop over a well-formed snapshot completes and appends one row
    for each surviving job, in order. *)
Lemma loop_rows now l :
  ∀ a,
    Forall typed_start l →
    NoDup (DataTable.keys (table a) ++ (job_key <$> surviving l)) →
    ∃ a' new,
      for_each (add_job_row now) l a = (Ok tt, a')
      ∧ DataTable.rows (table a') = DataTable.rows (table a) ++ new
      ∧ DataTable.cursor_row (table a') = DataTable.cursor_row (table a)
      ∧ selected_jobs a' = selected_jobs a
      ∧ Forall2 (shows now (selected_jobs a)) new (surviving l).
Proof.
  induction l as [|job l IH]; intros a Hty Hnd.
  - exists a, []. rewrite app_nil_r. by split_and!.
  - apply Forall_cons in Hty as [Hj Hty].
    destruct (format_time_used_typed now job Hj) as [t Ht].
    rewrite surviving_cons in Hnd |- *.
    cbn [for_each]. unfold bind at 1, add_job_row at 1.
    fold (job_state job). unfold bind at 1, lift at 1. rewrite Ht.
    case_bool_decide as Hterm.
    + unfold ret at 1. by apply IH.
    + unfold bind at 1, gets at 1. rewrite table_add_row_eq.
      unfold DataTable.add_row. cbn [DataTable.row_key].
      fold (job_key job).
      rewrite fmap_cons in Hnd.
      assert (Hfresh : job_key job ∉ DataTable.keys (table a)).
      { apply NoDup_app in Hnd as (_ & Hdis & _).
        intros Hin. apply (Hdis _ Hin). by left. }
      rewrite bool_decide_eq_false_2 by done.
      set (r := {| DataTable.row_key := job_key job |}).
      destruct (IH (with_table
                      {| DataTable.rows := DataTable.rows (table a) ++ [r];
                         DataTable.cursor_row := DataTable.cursor_row (table a) |} a))
        as (a' & new & Hrun & Hrows & Hcur & Hsel & Hshow); [done | |].
      { unfold DataTable.keys in *. simpl. rewrite fmap_app. simpl.
        by rewrite <- app_assoc. }
      exists a', (r :: new). simpl in *. split_and!; try done.
      * by rewrite Hrows, <- app_assoc.
      * constructor; [|done]. by split_and!.
Qed.

Lemma get_row_index_Ok k tb i :
  DataTable.get_row_index k tb = Ok i →
  ∃ r, DataTable.rows tb !! i = Some r ∧ DataTable.row_key r = k.
Proof.
  unfold DataTable.get_row_index.
  destruct (list_find _ _) as [[j r]|] eqn:Hf; [|done].
  intros [= <-]. apply list_find_Some in Hf as (Hl & Hk & _). by exists r.
Qed.

Lemma get_row_index_Raise k tb e :
  DataTable.get_row_index k tb = Raise e → k ∉ DataTable.keys tb.
Proof.
  unfold DataTable.get_row_index, DataTable.keys.
  destruct (list_find _ _) as [[j r]|] eqn:Hf; [done|].
  intros _. rewrite list_find_None in Hf.
  intros (r & -> & Hr)%list_elem_of_fmap.
  by apply (proj1 (Forall_forall _ _) Hf r).
Qed.

Lemma cursor_key_move k tb i :
  DataTable.get_row_index k tb = Ok i →
  DataTable.cursor_key (DataTable.move_cursor i tb) = Ok k.
Proof.
  intros (r & Hl & Hk)%get_row_index_Ok.
  unfold DataTable.cursor_key, DataTable.move_cursor, DataTable.row_count. simpl.
  pose proof (lookup_lt_Some _ _ _ Hl) as Hlt.
  replace (i `min` (length (DataTable.rows tb) - 1)) with i by lia.
  by rewrite Hl, Hk.
Qed.

(** A refresh cycle on a well-formed snapshot: it completes, the table
    holds one row for each surviving job, in the order of the snapshot, and
    the cursor is on the row of the key it was on when that key is still
    in the table, on the first row otherwise. *)
Lemma refresh_well_formed o now l a :
  fst (JobManager.get_jobs o a) = Ok (JobList l) →
  well_formed l →
  ∃ a',
    refresh_jobs_async o now a = (Ok tt, a')
    ∧ Forall2 (shows now (selected_jobs a)) (DataTable.rows (table a')) (surviving l)
    ∧ (∀ k, DataTable.cursor_key (table a) = Ok k →
            k ∈ DataTable.keys (table a') →
            DataTable.cursor_key (table a') = Ok k)
    ∧ (∀ k, DataTable.cursor_key (table a) = Ok k →
            k ∉ DataTable.keys (table a') →
            DataTable.cursor_row (table a') = 0).
Proof.
  intros Hjobs [Hty Hnd].
  destruct (refresh_unfold o now a) as (jobs & a1 & Hg & Htb & Hsel & ->).
  rewrite Hg in Hjobs. simpl in Hjobs. injection Hjobs as ->.
  destruct (merge_unfold now (JobList l) a1) as (k0 & Hcap & ->).
  destruct (loop_rows now l (with_table DataTable.empty a1) Hty)
    as (a2 & new & Hrun & Hrows & Hcur & Hsel2 & Hshow); [done|].
  simpl in Hrows, Hcur, Hsel2, Hshow.
  unfold bind. rewrite Hrun, restore_cursor_eq.
  eexists. split; [done|]. cbn [table snd].
  assert (Hk0 : ∀ k, DataTable.cursor_key (table a) = Ok k → k0 = Some k).
  { intros k Hk. rewrite <- Htb in Hk. apply capture_cursor_key in Hk.
    rewrite Hk in Hcap. by injection Hcap as <-. }
  split_and!.
  - rewrite <- Hsel. subst new.
    destruct k0 as [k|]; [|done].
    by destruct (DataTable.get_row_index k (table a2)).
  - intros k Hk Hin. rewrite (Hk0 k Hk) in *.
    destruct (DataTable.get_row_index k (table a2)) as [i|e] eqn:Hi.
    + simpl. by apply cursor_key_move.
    + apply get_row_index_Raise in Hi. by destruct Hi.
  - intros k Hk Hnin. rewrite (Hk0 k Hk) in *.
    destruct (DataTable.get_row_index k (table a2)) as [i|e] eqn:Hi; [|done].
    destruct Hnin. simpl.
    apply get_row_index_Ok in Hi as (r & Hl & <-).
    unfold DataTable.keys, DataTable.move_cursor. simpl.
    apply list_elem_of_fmap. exists r. split; [done|].
    by apply list_elem_of_lookup_2 in Hl.
Qed.

Lemma shows_keys now sel rows l :
  Forall2 (shows now sel) rows l → DataTable.row_key <$> rows = job_key <$> l.
Proof.
  induction 1 as [|r job rows l Hs _ IH]; [done|].
  rewrite !fmap_cons, IH. by destruct Hs as [-> _].
Qed.

(** ** The cursor *)

(** C2: a refresh cycle on a well-formed snapshot completes; when the
    identifier under the cursor before the cycle is among the jobs that
    survive the terminal-state filter, the cursor is on the row of that
    identifier afterwards, wherever that row now is; when it is not, the
    cursor is on the first row, where [clear] left it. *)
Theorem cursor_follows_job (o : proc_outcome) (now : Z)
    (l : list (gmap string val)) (a : App) (k : string) :
  fst (JobManager.get_jobs o a) = Ok (JobList l) →
  well_formed l →
  DataTable.cursor_key (table a) = Ok k →
  fst (refresh_jobs_async o now a) = Ok tt ∧
  DataTable.keys (table (snd (refresh_jobs_async o now a))) = job_key <$> surviving l ∧
  (k ∈ job_key <$> surviving l →
   DataTable.cursor_key (table (snd (refresh_jobs_async o now a))) = Ok k) ∧
  (k ∉ job_key <$> surviving l →
   DataTable.cursor_row (table (snd (refresh_jobs_async o now a))) = 0).
Proof.
  intros Hjobs Hwf Hk.
  destruct (refresh_well_formed o now l a Hjobs Hwf)
    as (a' & -> & Hshow & Hin & Hout).
  apply shows_keys in Hshow. fold (DataTable.keys (table a')) in Hshow.
  simpl. rewrite <- Hshow. split_and!; [done | done | by apply Hin | by apply Hout].
Qed.

(** Well-formedness of a snapshot that is written out. *)
Ltac snapshot_well_formed :=
  split; [repeat constructor; intros _; by eexists | compute_done].

Lemma cursor_follows_job_witness :
  DataTable.cursor_key
    (table (snd (refresh_jobs_async
                   (Scenario.poll [Scenario.job_running; Scenario.job_completed;
                                   Scenario.job_pending])
                   1000 Scenario.two_rows)))
  = Ok "2".
Proof.
  apply (cursor_follows_job _ 1000
           [Scenario.job_running; Scenario.job_completed; Scenario.job_pending]
           Scenario.two_rows "2").
  - reflexivity.
  - snapshot_well_formed.
  - reflexivity.
  - compute_done.
Defined.

(** ** The rows *)

Lemma placement_meets_spec job : placement_as_specified job (placement job).
Proof.
  unfold placement_as_specified, placement, job_state, get.
  split_and!.
  - intros -> s -> Hs. simpl. by rewrite bool_decide_eq_true_2.
  - intros -> [-> | ->]; simpl; done.
  - intros Hs. by rewrite bool_decide_eq_false_2.
Qed.

(** C9: after a refresh cycle on a well-formed snapshot, the last cell of
    the row of each surviving job is the reason in parentheses when the job
    is PENDING, "(PENDING)" when a pending job has no reason, and the node
    list otherwise; a pending job with reason Resources shows
    "(Resources)" and a running job on node01 shows "node01". *)
Theorem placement_column :
  (∀ o now l a,
     fst (JobManager.get_jobs o a) = Ok (JobList l) →
     well_formed l →
     Forall2 (λ r job, placement_as_specified job (DataTable.c_last r))
             (DataTable.rows (table (snd (refresh_jobs_async o now a))))
             (surviving l)) ∧
  (λ r, (DataTable.row_key r, DataTable.c_last r, DataTable.c_time r))
    <$> DataTable.rows
          (table (snd (refresh_jobs_async
                         (Scenario.poll [Scenario.job_pending; Scenario.job_running])
                         1000 (init "alice"))))
  = [("1", VStr "(Resources)", "0:00"); ("2", VStr "node01", "1:05")].
Proof.
  split; [|by vm_compute].
  intros o now l a Hjobs Hwf.
  destruct (refresh_well_formed o now l a Hjobs Hwf) as (a' & -> & Hshow & _).
  simpl. eapply Forall2_impl; [exact Hshow|].
  intros r job (_ & _ & _ & _ & _ & _ & ->). apply placement_meets_spec.
Qed.

Lemma placement_column_witness :
  Forall2 (λ r job, placement_as_specified job (DataTable.c_last r))
    (DataTable.rows
       (table (snd (refresh_jobs_async
                      (Scenario.poll [Scenario.job_running; Scenario.job_completed;
                                      Scenario.job_pending])
                      1000 Scenario.two_rows))))
    (surviving [Scenario.job_running; Scenario.job_completed; Scenario.job_pending]).
Proof.
  apply (proj1 placement_column); [reflexivity | snapshot_well_formed].
Defined.

(** The value that [get_jobs] returns depends on the outcome of the
    process only. *)
Lemma get_jobs_value o a b :
  fst (JobManager.get_jobs o a) = fst (JobManager.get_jobs o b).
Proof.
  unfold JobManager.get_jobs, bind, try_except, gets, run_process, modify,
    decode, json_loads, data_get_jobs, logger_error, ret, raise.
  destruct o as [e | rc out err]; simpl; [done|].
  case_bool_decide.
  - by destruct err.
  - by destruct out as [| | [[v|]|]].
Qed.

(** C10: the key of every row that a refresh cycle adds is the plain
    identifier of its job, also when the job is selected and its first cell
    carries the marker and the markup; so the key under the cursor, at any
    position, is the plain identifier of the job of that row, and the keys
    of the table are the same whatever is selected. *)
Theorem row_key_is_plain_id (o : proc_outcome) (now : Z)
    (l : list (gmap string val)) (a : App) :
  fst (JobManager.get_jobs o a) = Ok (JobList l) →
  well_formed l →
  Forall2 (λ r job,
             DataTable.row_key r = job_key job ∧
             DataTable.c_jobid r
             = if bool_decide (job_key job ∈ selected_jobs a)
               then "[bold green]* " +:+ job_key job +:+ "[/]"
               else job_key job)
          (DataTable.rows (table (snd (refresh_jobs_async o now a))))
          (surviving l) ∧
  (∀ i job,
     surviving l !! i = Some job →
     DataTable.cursor_key
       (DataTable.move_cursor i (table (snd (refresh_jobs_async o now a))))
     = Ok (job_key job)) ∧
  (∀ s,
     DataTable.keys (table (snd (refresh_jobs_async o now (with_selected s a))))
     = job_key <$> surviving l).
Proof.
  intros Hjobs Hwf.
  destruct (refresh_well_formed o now l a Hjobs Hwf) as (a' & Hr & Hshow & _).
  rewrite Hr. simpl. split_and!.
  - eapply Forall2_impl; [exact Hshow|].
    by intros r job (-> & -> & _).
  - intros i job Hjob.
    pose proof (shows_keys _ _ _ _ Hshow) as Hkeys.
    assert (Hrow : (DataTable.row_key <$> DataTable.rows (table a')) !! i
                   = Some (job_key job)).
    { by rewrite Hkeys, list_lookup_fmap, Hjob. }
    rewrite list_lookup_fmap in Hrow.
    destruct (DataTable.rows (table a') !! i) as [r|] eqn:Hl; [|done].
    injection Hrow as Hrow.
    unfold DataTable.cursor_key, DataTable.move_cursor, DataTable.row_count. simpl.
    pose proof (lookup_lt_Some _ _ _ Hl) as Hlt.
    replace (i `min` (length (DataTable.rows (table a')) - 1)) with i by lia.
    by rewrite Hl, Hrow.
  - intros s.
    destruct (refresh_well_formed o now l (with_selected s a)) as (b' & -> & Hb & _);
      [by rewrite (get_jobs_value o _ a) | done |].
    simpl. by apply shows_keys in Hb.
Qed.

Lemma row_key_is_plain_id_witness :
  DataTable.keys
    (table (snd (refresh_jobs_async
                   (Scenario.poll [Scenario.job_running; Scenario.job_completed;
                                   Scenario.job_pending])
                   1000 (with_selected {["2"]} Scenario.two_rows))))
  = ["2"; "1"].
Proof.
  apply (row_key_is_plain_id
           (Scenario.poll [Scenario.job_running; Scenario.job_completed;
                           Scenario.job_pending])
           1000
           [Scenario.job_running; Scenario.job_completed; Scenario.job_pending]
           Scenario.two_rows);
    [reflexivity | snapshot_well_formed].
Defined.

(** ** Refresh cycles in flight *)

(** The toggle, with a row under the cursor and without. *)
Lemma action_toggle_select_on mode a k :
  DataTable.cursor_key (table a) = Ok k →
  snd (action_toggle_select mode a)
  = snd (refresh_jobs mode (with_selected (toggle k (selected_jobs a)) a)).
Proof.
  intros Hk. unfold action_toggle_select, try_except, bind, gets, lift, modify.
  rewrite Hk. unfold toggle.
  case_bool_decide; simpl;
    by destruct (refresh_jobs mode _) as [[[]|e] s'].
Qed.

Lemma action_toggle_select_off mode a e :
  DataTable.cursor_key (table a) = Raise e → snd (action_toggle_select mode a) = a.
Proof.
  intros Hk. unfold action_toggle_select, try_except, bind, gets, lift, modify.
  by rewrite Hk.
Qed.

(** Two workers with the same identifier are the same worker. *)
Lemma distinct_inj (ws : list worker) x y :
  NoDup (wid <$> ws) → x ∈ ws → y ∈ ws → wid x = wid y → x = y.
Proof.
  induction ws as [|z ws IH]; [by intros _ ?%elem_of_nil|].
  rewrite fmap_cons, NoDup_cons. intros [Hz Hnd] Hx Hy Hxy.
  apply elem_of_cons in Hx as [-> | Hx], Hy as [-> | Hy]; [done | | | by apply IH].
  - destruct Hz. rewrite Hxy. by apply list_elem_of_fmap_2.
  - destruct Hz. rewrite <- Hxy. by apply list_elem_of_fmap_2.
Qed.

Lemma distinct_workers_eq a a' :
  workers a' = workers a → next_wid a' = next_wid a →
  distinct_workers a → distinct_workers a'.
Proof. unfold distinct_workers. by intros -> ->. Qed.

Lemma start_worker_distinct st a :
  distinct_workers a → distinct_workers (snd (start_worker st a)).
Proof.
  intros [Hnd Hlt]. unfold distinct_workers, start_worker, modify. simpl. split.
  - rewrite fmap_app. simpl. apply NoDup_app. split_and!; [done | | apply NoDup_singleton].
    intros n Hn. rewrite list_elem_of_singleton. intros ->.
    apply list_elem_of_fmap in Hn as (x & Hx & Hin).
    rewrite Forall_forall in Hlt. specialize (Hlt x Hin). lia.
  - apply Forall_app. split.
    + eapply Forall_impl; [exact Hlt|]. simpl. intros x ?. lia.
    + apply Forall_singleton. simpl. lia.
Qed.

Lemma refresh_jobs_distinct mode a :
  distinct_workers a → distinct_workers (snd (refresh_jobs mode a)).
Proof.
  intros Ha. destruct mode; unfold refresh_jobs, bind, modify, gets; simpl.
  - apply (start_worker_distinct AwaitGetJobs (with_workers [] (next_wid a) a)).
    split; simpl; [apply NoDup_nil_2 | done].
  - case_bool_decide; [done|]. by apply start_worker_distinct.
Qed.

Lemma remove_worker_distinct w a :
  distinct_workers a → distinct_workers (remove_worker w a).
Proof.
  intros [Hnd Hlt]. unfold distinct_workers, remove_worker. simpl. split.
  - apply NoDup_fmap_2_strong.
    + intros x y [_ Hx]%list_elem_of_filter [_ Hy]%list_elem_of_filter.
      by apply (distinct_inj (workers a)).
    + apply NoDup_filter. by apply (NoDup_fmap_1 wid).
  - rewrite Forall_forall in Hlt. apply Forall_forall.
    intros x [_ Hx]%list_elem_of_filter. by apply Hlt.
Qed.

Lemma set_stage_wids w st a : wid <$> workers (set_stage w st a) = wid <$> workers a.
Proof.
  unfold set_stage. simpl. rewrite <- list_fmap_compose.
  apply list_fmap_ext. intros i x _. simpl. by case_bool_decide.
Qed.

Lemma set_stage_distinct w st a :
  distinct_workers a → distinct_workers (set_stage w st a).
Proof.
  intros [Hnd Hlt]. split; [by rewrite set_stage_wids|].
  unfold set_stage. simpl. apply Forall_fmap.
  eapply Forall_impl; [exact Hlt|]. intros x Hx. simpl. by case_bool_decide; subst.
Qed.

(** A worker that resumes keeps its identifier or ends. *)
Lemma resume_distinct w (m : M App (option stage)) a :
  preserves workers m → preserves next_wid m →
  distinct_workers a → distinct_workers (resume w m a).
Proof.
  intros Hw Hn Ha. unfold resume.
  pose proof (preserves_eq workers m a Hw) as Ew.
  pose proof (preserves_eq next_wid m a Hn) as En.
  destruct (m a) as [[[st|]|e] a']; simpl in *.
  - apply set_stage_distinct. by apply (distinct_workers_eq a).
  - apply remove_worker_distinct. by apply (distinct_workers_eq a).
  - apply (distinct_workers_eq (remove_worker w a')); [done..|].
    apply remove_worker_distinct. by apply (distinct_workers_eq a).
Qed.

Lemma step_distinct mode e a :
  distinct_workers a → distinct_workers (step mode e a).
Proof.
  intros Ha. unfold step. case_bool_decide; [done|].
  destruct e as [| | |targets|w o|w o now].
  - by apply refresh_jobs_distinct.
  - by apply refresh_jobs_distinct.
  - destruct (DataTable.cursor_key (table a)) as [k|err] eqn:Hk.
    + rewrite (action_toggle_select_on _ _ _ Hk). by apply refresh_jobs_distinct.
    + by rewrite (action_toggle_select_off _ _ _ Hk).
  - unfold start_do_kill_jobs. case_bool_decide; [done|]. by apply start_worker_distinct.
  - destruct (worker_stage w a) as [[|ids|]|]; try done.
    apply resume_distinct; [frame | frame | done].
  - destruct (worker_stage w a) as [[|ids|]|]; try done;
      (apply resume_distinct; [frame | frame | done]).
Qed.

(** In every state that the application reaches the workers are distinct. *)
Lemma run_distinct mode events u : distinct_workers (run mode events (init u)).
Proof.
  apply (run_invariant distinct_workers).
  - intros e a. apply step_distinct.
  - split; simpl; [apply NoDup_nil_2 | done].
Qed.

Lemma worker_stage_elem w a st :
  worker_stage w a = Some st → {| wid := w; at_stage := st |} ∈ workers a.
Proof.
  unfold worker_stage. intros H.
  destruct (list_find _ _) as [[i x]|] eqn:Hf; [|done].
  apply list_find_Some in Hf as (Hi & Hx & _). simpl in *.
  injection H as <-. subst w. destruct x. by eapply list_elem_of_lookup_2.
Qed.

Lemma worker_stage_set_stage w st a st0 :
  worker_stage w a = Some st0 → worker_stage w (set_stage w st a) = Some st.
Proof.
  unfold worker_stage, set_stage. simpl.
  induction (workers a) as [|x ws IH]; [done|].
  rewrite fmap_cons. simpl. case_bool_decide as Hx.
  - rewrite !decide_True by done. done.
  - rewrite !decide_False by done. intros H.
    destruct (list_find _ ws) as [[i y]|]; [|done]. simpl in *.
    specialize (IH H).
    destruct (list_find _ (_ <$> ws)) as [[j z]|]; [|done]. done.
Qed.

(** The worker of [do_kill_jobs] that goes on into [refresh_jobs_async]
    is one more cycle in flight; the others stay as they are. *)
Lemma set_stage_cycles w ids a :
  NoDup (wid <$> workers a) →
  worker_stage w a = Some (AwaitCancel ids) →
  cycles_in_flight (set_stage w AwaitGetJobsAfterCancel a) = S (cycles_in_flight a) ∧
  (∀ x, x ∈ workers a → fetching x → x ∈ workers (set_stage w AwaitGetJobsAfterCancel a)).
Proof.
  intros Hnd Hw. apply worker_stage_elem in Hw.
  split.
  - unfold cycles_in_flight, set_stage. simpl.
    induction (workers a) as [|x ws IH]; [by apply elem_of_nil in Hw|].
    rewrite fmap_cons in Hnd. apply NoDup_cons in Hnd as [Hx Hnd].
    rewrite fmap_cons, !filter_cons.
    apply elem_of_cons in Hw as [<- | Hw].
    + simpl. rewrite bool_decide_eq_true_2 by done.
      case_decide as Hf; [|destruct Hf; by right].
      simpl. f_equal. f_equal. f_equal.
      rewrite <- (list_fmap_id ws) at 2. apply list_fmap_ext.
      intros i y Hy. simpl. rewrite bool_decide_eq_false_2; [done|].
      intros Hyw. apply Hx. simpl. rewrite <- Hyw.
      apply list_elem_of_fmap_2. by eapply list_elem_of_lookup_2.
    + rewrite bool_decide_eq_false_2.
      2:{ intros Hxw. apply Hx. rewrite Hxw.
          by apply (list_elem_of_fmap_2 wid _ {| wid := w; at_stage := AwaitCancel ids |}). }
      case_decide; simpl; by rewrite IH.
  - intros x Hx Hf. unfold set_stage. simpl.
    apply list_elem_of_fmap. exists x. split; [|done].
    rewrite bool_decide_eq_false_2; [done|]. intros Hxw.
    assert (x = {| wid := w; at_stage := AwaitCancel ids |}) as ->.
    { by apply (distinct_inj (workers a)). }
    by destruct Hf.
Qed.

(** C1, as the code has it: the refresh cycles in flight are not bounded
    by one.  The reconciliation after a cancel does not come in through
    [refresh_jobs]: in every state that the application reaches, under
    either reading of [exclusive], when [scancel] returns with success to a
    worker of [do_kill_jobs], that worker goes on into the job fetch of
    [refresh_jobs_async] by itself; every cycle that was in flight still
    is, and one more cycle is in flight than before. *)
Theorem cancel_starts_its_own_cycle (mode : exclusive_mode) (events : list event)
    (u : string) (w : nat) (ids : list string) (o : proc_outcome) :
  exited (run mode events (init u)) = None →
  worker_stage w (run mode events (init u)) = Some (AwaitCancel ids) →
  cancel_succeeds ids o →
  cycles_in_flight (step mode (CancelReturns w o) (run mode events (init u)))
  = S (cycles_in_flight (run mode events (init u))) ∧
  worker_stage w (step mode (CancelReturns w o) (run mode events (init u)))
  = Some AwaitGetJobsAfterCancel ∧
  (∀ x, x ∈ workers (run mode events (init u)) → fetching x →
        x ∈ workers (step mode (CancelReturns w o) (run mode events (init u)))).
Proof.
  pose proof (run_distinct mode events u) as [Hnd _].
  generalize dependent (run mode events (init u)). intros a Hnd Hlive Hw Hok.
  unfold step. rewrite Hlive. rewrite bool_decide_eq_false_2 by (by intros [? ?]).
  rewrite Hw. unfold resume, bind. rewrite (cancel_jobs_success _ _ _ Hok).
  simpl.
  set (a2 := with_selected _ _).
  assert (Hws : workers a2 = workers a) by done.
  assert (Hw2 : worker_stage w a2 = Some (AwaitCancel ids)) by done.
  destruct (set_stage_cycles w ids a2) as [Hc Hin]; [by rewrite Hws | done |].
  split_and!.
  - by rewrite Hc.
  - by apply (worker_stage_set_stage _ _ _ (AwaitCancel ids)).
  - intros x Hx. by apply Hin.
Qed.

Lemma cancel_starts_its_own_cycle_witness :
  cycles_in_flight (run CancelGroup Scenario.kill_during_refresh (init "alice")) = 1 ∧
  cycles_in_flight
    (step CancelGroup (CancelReturns 2 Scenario.scancel_done)
       (run CancelGroup Scenario.kill_during_refresh (init "alice")))
  = S (cycles_in_flight (run CancelGroup Scenario.kill_during_refresh (init "alice"))).
Proof.
  split; [by vm_compute|].
  apply (cancel_starts_its_own_cycle CancelGroup Scenario.kill_during_refresh
           "alice" 2 ["1"] Scenario.scancel_done).
  - by vm_compute.
  - by vm_compute.
  - split; [done | by eexists _, _].
Defined.

(** The claim C1 fails.  Job 1 is on display and a refresh is in flight;
    the kill prompt is confirmed for the job under the cursor and
    [scancel] succeeds: the worker of [do_kill_jobs] goes on into
    [refresh_jobs_async] by itself and two cycles are in flight, under
    either reading of [exclusive].  Nor is a timer tick a no-op in
    Textual's documented behaviour: it replaces the reconciliation that is
    in flight by a new cycle, as it replaces a triggered cycle. *)
Lemma two_cycles_in_flight :
  fst (action_kill_job (run CancelGroup (Scenario.first_poll ++ [Tick]) (init "alice")))
  = Ok (Some ["1"]) ∧
  fst (action_kill_job (run DropNew (Scenario.first_poll ++ [Tick]) (init "alice")))
  = Ok (Some ["1"]) ∧
  cycles_in_flight (run CancelGroup Scenario.cancel_during_refresh (init "alice")) = 2 ∧
  cycles_in_flight (run DropNew Scenario.cancel_during_refresh (init "alice")) = 2 ∧
  workers (run CancelGroup Scenario.reconciling (init "alice"))
  = [{| wid := 1; at_stage := AwaitGetJobsAfterCancel |}] ∧
  workers (run CancelGroup (Scenario.reconciling ++ [Tick]) (init "alice"))
  = [{| wid := 2; at_stage := AwaitGetJobs |}] ∧
  workers (run CancelGroup [Tick] (init "alice"))
  = [{| wid := 0; at_stage := AwaitGetJobs |}] ∧
  workers (run CancelGroup [Tick; Tick] (init "alice"))
  = [{| wid := 1; at_stage := AwaitGetJobs |}].
Proof. split_and!; by vm_compute. Qed.

(** ** The toggle *)

Lemma toggle_elem_of k s j :
  j ∈ toggle k s ↔ if decide (j = k) then j ∉ s else j ∈ s.
Proof.
  unfold toggle. destruct (decide (j = k)) as [-> | Hne]; case_bool_decide.
  - rewrite elem_of_difference, elem_of_singleton. tauto.
  - rewrite elem_of_union, elem_of_singleton. tauto.
  - rewrite elem_of_difference, elem_of_singleton. tauto.
  - rewrite elem_of_union, elem_of_singleton. tauto.
Qed.

Lemma toggle_toggle k s : toggle k (toggle k s) = s.
Proof.
  apply set_eq. intros j. rewrite toggle_elem_of.
  destruct (decide (j = k)) as [-> | Hne].
  - rewrite toggle_elem_of. rewrite decide_True by done.
    destruct (decide (k ∈ s)); tauto.
  - rewrite toggle_elem_of. by rewrite decide_False.
Qed.

Lemma refresh_jobs_exited mode : preserves exited (refresh_jobs mode).
Proof. frame. Qed.

Lemma refresh_jobs_exec_calls mode : preserves exec_calls (refresh_jobs mode).
Proof. frame. Qed.

Lemma refresh_jobs_user mode : preserves user (refresh_jobs mode).
Proof. frame. Qed.

Lemma refresh_jobs_in_flight mode a :
  Exists (λ w, at_stage w = AwaitGetJobs) (workers (snd (refresh_jobs mode a))).
Proof.
  destruct mode; unfold refresh_jobs, bind, modify, start_worker, gets, ret; simpl.
  - by left.
  - case_bool_decide; simpl; [done|]. apply Exists_app. right. by left.
Qed.

Lemma resume_exec_calls w m a : exec_calls (resume w m a) = exec_calls (snd (m a)).
Proof. unfold resume. by destruct (m a) as [[[st|]|e] a']. Qed.

Lemma refresh_exec_calls o now a :
  exec_calls (snd (refresh_jobs_async o now a))
  = exec_calls a ++ [["squeue"; "-u"; user a; "--json"]].
Proof.
  unfold refresh_jobs_async, bind.
  destruct (get_jobs_returns o a) as (jobs & log & ->).
  by rewrite (preserves_eq _ _ _ (merge_exec_calls _ _)).
Qed.

(** C6, as the code has it: with a row under the cursor, the toggle flips
    the membership of that row's identifier in the selection set and of no
    other, so that two toggles in a row restore the set; it leaves the
    table as it is and calls [refresh_jobs], so a full refresh cycle is in
    flight afterwards, and when that cycle completes it has run [squeue]
    again. *)
Theorem toggle_select_refreshes (mode : exclusive_mode) (a : App) (k : string) :
  exited a = None →
  DataTable.cursor_key (table a) = Ok k →
  step mode KeySpace a
  = snd (refresh_jobs mode (with_selected (toggle k (selected_jobs a)) a)) ∧
  (∀ j, j ∈ selected_jobs (step mode KeySpace a)
        ↔ if decide (j = k) then j ∉ selected_jobs a else j ∈ selected_jobs a) ∧
  selected_jobs (step mode KeySpace (step mode KeySpace a)) = selected_jobs a ∧
  table (step mode KeySpace a) = table a ∧
  Exists (λ w, at_stage w = AwaitGetJobs) (workers (step mode KeySpace a)) ∧
  (∀ w o now,
     worker_stage w (step mode KeySpace a) = Some AwaitGetJobs →
     exec_calls (step mode (FetchReturns w o now) (step mode KeySpace a))
     = exec_calls a ++ [["squeue"; "-u"; user a; "--json"]]).
Proof.
  intros Hlive Hk.
  assert (Hstep : ∀ b, exited b = None → DataTable.cursor_key (table b) = Ok k →
            step mode KeySpace b
            = snd (refresh_jobs mode (with_selected (toggle k (selected_jobs b)) b))).
  { intros b Hb Hkb. unfold step.
    rewrite bool_decide_eq_false_2 by (rewrite Hb; by intros [? ?]).
    by apply action_toggle_select_on. }
  pose proof (Hstep a Hlive Hk) as Ha.
  assert (Hsel : selected_jobs (step mode KeySpace a) = toggle k (selected_jobs a)).
  { rewrite Ha. by rewrite (preserves_eq _ _ _ (refresh_jobs_selected _)). }
  assert (Htb : table (step mode KeySpace a) = table a).
  { rewrite Ha. by rewrite (preserves_eq _ _ _ (refresh_jobs_table _)). }
  assert (Hex : exited (step mode KeySpace a) = None).
  { rewrite Ha. by rewrite (preserves_eq _ _ _ (refresh_jobs_exited _)). }
  split_and!; try done.
  - intros j. rewrite Hsel. apply toggle_elem_of.
  - rewrite (Hstep (step mode KeySpace a)) by (by rewrite ?Htb).
    rewrite (preserves_eq _ _ _ (refresh_jobs_selected _)). simpl.
    rewrite Hsel. apply toggle_toggle.
  - rewrite Ha. apply refresh_jobs_in_flight.
  - intros w o now Hw. unfold step at 1.
    rewrite bool_decide_eq_false_2 by (rewrite Hex; by intros [? ?]).
    rewrite Hw, resume_exec_calls.
    assert (Hm : exec_calls (snd ((do! refresh_jobs_async o now in ret (@None stage))
                                    (step mode KeySpace a)))
                 = exec_calls (snd (refresh_jobs_async o now (step mode KeySpace a)))).
    { unfold bind.
      by destruct (refresh_jobs_async o now (step mode KeySpace a)) as [[[]|e] a']. }
    rewrite Hm, refresh_exec_calls, Ha.
    rewrite (preserves_eq _ _ _ (refresh_jobs_exec_calls _)).
    by rewrite (preserves_eq _ _ _ (refresh_jobs_user _)).
Qed.

Lemma toggle_select_refreshes_witness :
  selected_jobs (step CancelGroup KeySpace (step CancelGroup KeySpace Scenario.two_rows))
  = selected_jobs Scenario.two_rows.
Proof.
  apply (toggle_select_refreshes CancelGroup Scenario.two_rows "2");
    reflexivity.
Defined.

(** The claim C6 fails: the cycle that the toggle starts fetches the jobs
    again; here job 2 has gone from the queue in the meantime, and the
    table after the toggle shows the new snapshot, with [squeue] run once
    more. *)
Lemma toggle_fetches_again :
  let a := run CancelGroup
             [KeySpace; FetchReturns 0 (Scenario.poll [Scenario.job_pending]) 1001]
             Scenario.two_rows in
  DataTable.keys (table Scenario.two_rows) = ["1"; "2"] ∧
  DataTable.keys (table a) = ["1"] ∧
  exec_calls a
  = exec_calls Scenario.two_rows ++ [["squeue"; "-u"; "alice"; "--json"]] ∧
  exec_calls
    (run DropNew
       [KeySpace; FetchReturns 0 (Scenario.poll [Scenario.job_pending]) 1001]
       Scenario.two_rows)
  = exec_calls Scenario.two_rows ++ [["squeue"; "-u"; "alice"; "--json"]].
Proof. split_and!; by vm_compute. Qed.

(** ** Coherence of the model and its boundary *)

(** The two resumptions of the [do_kill_jobs] worker in the event loop
    make up [do_kill_jobs] run in one go. *)
Lemma do_kill_jobs_split ids cancel_o fetch_o now a :
  do_kill_jobs ids cancel_o fetch_o now a
  = (let! success := JobManager.cancel_jobs ids cancel_o in
     let! goes_on := after_cancel ids success in
     if goes_on then refresh_jobs_async fetch_o now else ret tt) a.
Proof.
  unfold do_kill_jobs, after_cancel, bind, notify, modify, ret.
  destruct (JobManager.cancel_jobs ids cancel_o a) as [[[]|e] a1]; done.
Qed.

(** The kill action targets the selection when there is one, the row
    under the cursor otherwise, and asks nothing when there is neither. *)
Lemma action_kill_job_targets a :
  fst (action_kill_job a)
  = Ok (if bool_decide (elements (selected_jobs a) = []) then
          match DataTable.cursor_key (table a) with
          | Ok k => Some [k]
          | Raise _ => None
          end
        else Some (elements (selected_jobs a))).
Proof.
  unfold action_kill_job, try_except, bind, gets, lift, ret.
  case_bool_decide; [|done].
  by destruct (DataTable.cursor_key (table a)).
Qed.

(** Outside the well-formed snapshots the refresh cycle does not complete:
    a second job with the same identifier, or a running job whose start
    time is not an integer, raises out of the loop. *)
Example duplicate_ids_raise :
  fst (refresh_jobs_async (Scenario.poll [Scenario.job_pending; Scenario.job_pending])
         1000 (init "alice"))
  = Raise (DuplicateKey "1").
Proof. by vm_compute. Qed.

Example untyped_start_time_raises :
  fst (refresh_jobs_async
         (Scenario.poll [<["start_time" := VStr "soon"]> Scenario.job_running])
         1000 (init "alice"))
  = Raise TypeError.
Proof. by vm_compute. Qed.

(** A JSON object whose ["jobs"] member is not a list is not a failed
    poll for [get_jobs]: the member is returned as it is. *)
Example jobs_member_returned_as_is :
  fst (JobManager.get_jobs (Exits 0 (Json (DObject (Some NotIterable))) (Some ""))
         (init "alice"))
  = Ok NotIterable.
Proof. by vm_compute. Qed.

Lemma format_time_used_Ok now job t :
  format_time_used now (get job "start_time" (VInt 0)) (job_state job) = Ok t →
  typed_start job.
Proof.
  unfold format_time_used, typed_start. intros Hf Hs. rewrite Hs in Hf.
  rewrite bool_decide_eq_false_2 in Hf by (intros Hne; by apply Hne).
  destruct (get job "start_time" (VInt 0)) as [s|z]; [done | by exists z].
Qed.

(** A loop that completes was given a well-formed list. *)
Lemma loop_completes now l :
  ∀ a,
    NoDup (DataTable.keys (table a)) →
    fst (for_each (add_job_row now) l a) = Ok tt →
    Forall typed_start l
    ∧ NoDup (DataTable.keys (table a) ++ (job_key <$> surviving l)).
Proof.
  induction l as [|job l IH]; intros a Hnd Hrun.
  - split; [constructor | by rewrite app_nil_r].
  - rewrite surviving_cons. cbn [for_each] in Hrun.
    unfold bind at 1, add_job_row at 1 in Hrun. fold (job_state job) in Hrun.
    unfold bind at 1, lift at 1 in Hrun.
    destruct (format_time_used now _ _) as [t|e] eqn:Ht; [|done].
    apply format_time_used_Ok in Ht.
    case_bool_decide as Hterm.
    + unfold ret at 1 in Hrun. destruct (IH a Hnd Hrun) as [Hty Hnd'].
      split; [by constructor | done].
    + unfold bind at 1, gets at 1 in Hrun. rewrite table_add_row_eq in Hrun.
      unfold DataTable.add_row in Hrun. cbn [DataTable.row_key] in Hrun.
      fold (job_key job) in Hrun.
      case_bool_decide as Hin; [done|].
      set (r := {| DataTable.row_key := job_key job |}) in Hrun.
      destruct (IH (with_table
                      {| DataTable.rows := DataTable.rows (table a) ++ [r];
                         DataTable.cursor_row := DataTable.cursor_row (table a) |} a))
        as [Hty Hnd']; [| done |].
      { unfold DataTable.keys in *. simpl. rewrite fmap_app. simpl.
        apply NoDup_app. split_and!; [done | | apply NoDup_singleton].
        intros x Hx ->%list_elem_of_singleton. by apply Hin. }
      split; [by constructor|].
      unfold DataTable.keys in *. simpl in Hnd'.
      rewrite fmap_app, <- app_assoc in Hnd'. by rewrite fmap_cons.
Qed.

(** The refresh cycles that complete are those on a well-formed snapshot. *)
Lemma refresh_completes_iff o now l a :
  fst (JobManager.get_jobs o a) = Ok (JobList l) →
  fst (refresh_jobs_async o now a) = Ok tt ↔ well_formed l.
Proof.
  intros Hjobs. split.
  - destruct (refresh_unfold o now a) as (jobs & a1 & Hg & _ & _ & ->).
    rewrite Hg in Hjobs. simpl in Hjobs. injection Hjobs as ->.
    destruct (merge_unfold now (JobList l) a1) as (k0 & _ & ->).
    unfold bind.
    destruct (for_each (add_job_row now) l (with_table DataTable.empty a1))
      as [[[]|e] a2] eqn:Hrun; [|done].
    intros _.
    apply (loop_completes now l (with_table DataTable.empty a1)).
    + apply NoDup_nil_2.
    + by rewrite Hrun.
  - intros Hwf.
    by destruct (refresh_well_formed o now l a Hjobs Hwf) as (a' & -> & _).
Qed.

(** * Further properties *)

Import Text Screens DetailSpec.

(** ** Splitting text *)

Lemma linebreak_is_space c : is_linebreak c = true → is_space c = true.
Proof. destruct c as [[] [] [] [] [] [] [] []]; by vm_compute. Qed.

Lemma split_from_flush word c s :
  is_space c = true →
  split_from word (c :: s) = split_from word [] ++ split s.
Proof. intros Hc. simpl. rewrite Hc. by destruct word. Qed.

Lemma split_from_app_space word x c y :
  is_space c = true →
  split_from word (x ++ c :: y) = split_from word x ++ split y.
Proof.
  intros Hc. revert word. induction x as [|d x IH]; intros word.
  - by apply split_from_flush.
  - simpl. destruct (is_space d); [|apply IH].
    destruct word; by rewrite IH.
Qed.

Lemma split_from_snoc_space word x c :
  is_space c = true → split_from word (x ++ [c]) = split_from word x.
Proof. intros Hc. rewrite split_from_app_space by done. apply app_nil_r. Qed.

Lemma split_lstrip s : split (lstrip s) = split s.
Proof.
  unfold split. induction s as [|c s IH]; [done|].
  simpl. destruct (is_space c) eqn:Hc; [done|].
  simpl. by rewrite Hc.
Qed.

Lemma split_rstrip s : split (reverse (lstrip (reverse s))) = split s.
Proof.
  induction s as [|c s IH] using rev_ind; [done|].
  rewrite reverse_snoc. simpl. destruct (is_space c) eqn:Hc.
  - rewrite IH. unfold split. by rewrite split_from_snoc_space.
  - by rewrite reverse_cons, reverse_involutive.
Qed.

Lemma split_strip s : split (strip s) = split s.
Proof. unfold strip. by rewrite split_rstrip, split_lstrip. Qed.

(** The parts of the lines of a text, taken line after line, are the
    parts of the text. *)
Lemma split_splitlines_from n :
  ∀ s line,
    length s ≤ n →
    concat ((λ l, split (strip l)) <$> splitlines_from line s)
    = split (reverse line ++ s).
Proof.
  induction n as [|n IH]; intros s line Hn.
  - destruct s; [|simpl in Hn; lia]. simpl. rewrite app_nil_r.
    destruct line as [|c line]; [done|]. simpl.
    by rewrite app_nil_r, split_strip.
  - destruct s as [|c s].
    { simpl. rewrite app_nil_r.
      destruct line as [|c line]; [done|]. simpl.
      by rewrite app_nil_r, split_strip. }
    simpl in Hn. cbn [splitlines_from].
    destruct (is_linebreak c) eqn:Hc.
    + apply linebreak_is_space in Hc.
      unfold split at 2. rewrite split_from_app_space by done.
      rewrite fmap_cons. cbn [concat]. rewrite split_strip. f_equal.
      destruct s as [|d s]; [done|].
      case_bool_decide as Hcr.
      * rewrite (IH s []) by (simpl in Hn; lia). simpl.
        assert (Hd : is_space d = true).
        { destruct Hcr as [_ Hd]. destruct d as [[] [] [] [] [] [] [] []]; by vm_compute in Hd |- *. }
        unfold split. simpl. by rewrite Hd.
      * by rewrite (IH (d :: s) []) by (simpl in *; lia).
    + rewrite (IH s (c :: line)) by lia.
      by rewrite reverse_cons, <- app_assoc.
Qed.

Lemma split_splitlines s :
  concat ((λ l, split (strip l)) <$> splitlines s) = split s.
Proof. by apply (split_splitlines_from (length s) s []). Qed.

Lemma foldl_over_concat {A B} (f : A → B → A) (ls : list (list B)) :
  ∀ a, foldl f a (concat ls) = foldl (λ a l, foldl f a l) a ls.
Proof.
  induction ls as [|l ls IH]; intros a; [done|].
  simpl. by rewrite foldl_app, IH.
Qed.

(** The details do not depend on how the output is cut into lines: they
    are built from the parts of the whole output. *)
Lemma parse_details_split output :
  parse_details output = foldl add_part [] (split (String.list_ascii_of_string output)).
Proof.
  unfold parse_details. rewrite <- split_splitlines, foldl_over_concat.
  generalize (@nil (string * string)).
  induction (splitlines _) as [|l ls IH]; intros d; [done|].
  simpl. by rewrite IH.
Qed.

(** ** The dict of details *)

Lemma dict_get_set k v d k' :
  dict_get k' (dict_set k v d) = if bool_decide (k = k') then Some v else dict_get k' d.
Proof.
  induction d as [|[k0 v0] d IH]; simpl.
  - by repeat case_bool_decide.
  - repeat (case_bool_decide; simpl; subst); try done; by rewrite IH;
      repeat case_bool_decide.
Qed.

Lemma dict_set_keys k v d :
  (dict_set k v d).*1 = if bool_decide (k ∈ d.*1) then d.*1 else d.*1 ++ [k].
Proof.
  induction d as [|[k0 v0] d IH]; [done|]. cbn [dict_set].
  destruct (decide (k0 = k)) as [-> | Hne].
  - rewrite (bool_decide_eq_true_2 (k = k)) by done.
    rewrite bool_decide_eq_true_2; [done|]. apply list_elem_of_here.
  - rewrite (bool_decide_eq_false_2 (k0 = k)) by done.
    rewrite fmap_cons, IH. destruct (decide (k ∈ d.*1)) as [Hin | Hin].
    + rewrite (bool_decide_eq_true_2 (k ∈ d.*1)) by done.
      rewrite bool_decide_eq_true_2; [done|]. by apply list_elem_of_further.
    + rewrite (bool_decide_eq_false_2 (k ∈ d.*1)) by done.
      rewrite bool_decide_eq_false_2; [done|].
      intros [-> | ?]%elem_of_cons; [by destruct Hne | by destruct Hin].
Qed.

Lemma dict_set_NoDup k v d : NoDup d.*1 → NoDup (dict_set k v d).*1.
Proof.
  intros Hd. rewrite dict_set_keys. case_bool_decide; [done|].
  apply NoDup_app. split_and!; [done | | apply NoDup_singleton].
  intros x Hx ->%list_elem_of_singleton. done.
Qed.

Lemma dict_set_fresh k v d : k ∉ d.*1 → dict_set k v d = d ++ [(k, v)].
Proof.
  induction d as [|[k0 v0] d IH]; [done|]. simpl. intros Hk.
  apply not_elem_of_cons in Hk as [Hne Hk].
  rewrite bool_decide_eq_false_2 by congruence.
  by rewrite IH.
Qed.

Lemma dict_set_Forall (P : string * string → Prop) k v d :
  P (k, v) → Forall P d → Forall P (dict_set k v d).
Proof.
  intros Hkv. induction 1 as [|[k0 v0] d H0 Hd IH]; simpl.
  - by repeat constructor.
  - case_bool_decide; by constructor.
Qed.

Lemma dict_get_foldl_set k kvs :
  ∀ d,
    dict_get k (foldl (λ d kv, dict_set (fst kv) (snd kv) d) d kvs)
    = match last_value k kvs with
      | Some v => Some v
      | None => dict_get k d
      end.
Proof.
  unfold last_value.
  induction kvs as [|[k0 v0] kvs IH] using rev_ind; intros d; [done|].
  rewrite foldl_app, filter_app. cbn [foldl fst snd].
  rewrite dict_get_set, filter_cons, filter_nil. cbn [fst].
  destruct (decide (k0 = k)) as [-> | Hne].
  - rewrite bool_decide_eq_true_2 by done. by rewrite last_snoc.
  - rewrite bool_decide_eq_false_2 by done. rewrite app_nil_r. apply IH.
Qed.

(** The loop over the parts sets the key and value of each part that
    contains "=". *)
Lemma foldl_add_part parts :
  ∀ d,
    foldl add_part d parts
    = foldl (λ d kv, dict_set (fst kv) (snd kv) d) d
        ((λ part, let '(k, v) := split_eq part in
                  (String.string_of_list_ascii k, String.string_of_list_ascii v))
           <$> filter (λ part, contains_eq part = true) parts).
Proof.
  induction parts as [|part parts IH]; intros d; [done|].
  rewrite filter_cons. cbn [foldl]. unfold add_part at 2.
  destruct (contains_eq part) eqn:Hc.
  - rewrite decide_True by done. rewrite fmap_cons. cbn [foldl].
    destruct (split_eq part) as [key value]. apply IH.
  - rewrite decide_False by done. apply IH.
Qed.

Lemma parse_details_key_values output :
  parse_details output
  = foldl (λ d kv, dict_set (fst kv) (snd kv) d) [] (key_values output).
Proof. rewrite parse_details_split. apply foldl_add_part. Qed.

Lemma split_from_no_space s :
  ∀ word,
    Forall (λ c, is_space c = false) word →
    Forall (λ part, part ≠ [] ∧ Forall (λ c, is_space c = false) part)
           (split_from word s).
Proof.
  induction s as [|c s IH]; intros word Hw; simpl.
  - destruct word as [|d word]; constructor; [|constructor].
    split; [|by apply Forall_reverse].
    intros Hr. apply (f_equal length) in Hr.
    rewrite length_reverse in Hr. done.
  - destruct (is_space c) eqn:Hc.
    + destruct word as [|d word]; [by apply IH|].
      constructor; [|by apply IH].
      split; [|by apply Forall_reverse].
      intros Hr. apply (f_equal length) in Hr.
      rewrite length_reverse in Hr. done.
    + apply IH. by constructor.
Qed.

Lemma split_eq_Forall (P : Ascii.ascii → Prop) part k v :
  split_eq part = (k, v) → Forall P part →
  Forall P k ∧ Forall P v ∧ Forall (λ c, ¬ is_eq c) k.
Proof.
  revert k v. induction part as [|c part IH]; intros k v Hs Hp; simpl in Hs.
  - injection Hs as <- <-. by split_and!.
  - apply Forall_cons in Hp as [Hc Hp].
    case_bool_decide as He.
    + injection Hs as <- <-. by split_and!.
    + destruct (split_eq part) as [k' v'] eqn:Hs'. injection Hs as <- <-.
      destruct (IH k' v' eq_refl Hp) as (? & ? & ?).
      split_and!; [by constructor | done | by constructor].
Qed.

Lemma list_ascii_app a b :
  String.list_ascii_of_string (a +:+ b)
  = String.list_ascii_of_string a ++ String.list_ascii_of_string b.
Proof. induction a as [|c a IH]; [done|]. simpl. by rewrite <- IH. Qed.

Lemma split_from_word w :
  ∀ word s,
    Forall (λ c, is_space c = false) w →
    split_from word (w ++ s) = split_from (reverse w ++ word) s.
Proof.
  induction w as [|c w IH]; intros word s Hw; [done|].
  apply Forall_cons in Hw as [Hc Hw]. simpl. rewrite Hc, IH by done.
  by rewrite reverse_cons, <- app_assoc.
Qed.

Lemma split_skip_blank x y :
  Forall (λ c, is_space c = true) x → split (x ++ y) = split y.
Proof.
  induction 1 as [|c x Hc _ IH]; [done|].
  unfold split in *. simpl. by rewrite Hc.
Qed.

Lemma split_one_word w :
  w ≠ [] → Forall (λ c, is_space c = false) w → split w = [w].
Proof.
  intros Hne Hw. unfold split.
  rewrite <- (app_nil_r w) at 1. rewrite split_from_word by done.
  rewrite app_nil_r. simpl.
  destruct (reverse w) as [|c r] eqn:Hr.
  - apply (f_equal length) in Hr. rewrite length_reverse in Hr.
    by destruct w.
  - by rewrite <- Hr, reverse_involutive.
Qed.

Lemma split_word_blank w sep rest :
  w ≠ [] → Forall (λ c, is_space c = false) w →
  sep ≠ [] → Forall (λ c, is_space c = true) sep →
  split (w ++ sep ++ rest) = w :: split rest.
Proof.
  intros Hne Hw Hs Hsep. destruct sep as [|c sep]; [done|].
  apply Forall_cons in Hsep as [Hc Hsep].
  unfold split at 1. rewrite <- app_comm_cons.
  rewrite split_from_app_space by done.
  fold (split w). rewrite split_one_word by done.
  by rewrite split_skip_blank.
Qed.

(** The parts of words written with blanks between them are the words. *)
Lemma split_join sep ts :
  blank sep →
  Forall (λ t, t ≠ "" ∧ no_space t) ts →
  split (String.list_ascii_of_string (join sep ts)) = String.list_ascii_of_string <$> ts.
Proof.
  intros [Hne Hsep]. induction 1 as [|t ts [Ht Hns] Hts IH]; [done|].
  assert (Hl : String.list_ascii_of_string t ≠ []) by by destruct t.
  destruct ts as [|t' ts].
  - simpl. by rewrite split_one_word.
  - change (join sep (t :: t' :: ts)) with (t +:+ sep +:+ join sep (t' :: ts)).
    rewrite !list_ascii_app, split_word_blank.
    + by rewrite IH.
    + done.
    + done.
    + by destruct sep.
    + done.
Qed.

Lemma split_eq_key_value k v :
  Forall (λ c, ¬ is_eq c) k →
  split_eq (k ++ Ascii.ascii_of_nat 61 :: v) = (k, v)
  ∧ contains_eq (k ++ Ascii.ascii_of_nat 61 :: v) = true.
Proof.
  intros Hk. split.
  - induction Hk as [|c k Hc _ IH]; [done|].
    simpl. rewrite bool_decide_eq_false_2 by done. by rewrite IH.
  - unfold contains_eq. apply bool_decide_eq_true_2, Exists_app. right. by left.
Qed.

Lemma foldl_set_fresh details :
  ∀ d,
    NoDup (d ++ details).*1 →
    foldl (λ d kv, dict_set (fst kv) (snd kv) d) d details = d ++ details.
Proof.
  induction details as [|[k v] details IH]; intros d Hnd.
  - by rewrite app_nil_r.
  - cbn [foldl fst snd]. rewrite dict_set_fresh.
    + rewrite IH; by rewrite <- app_assoc.
    + rewrite fmap_app in Hnd. apply NoDup_app in Hnd as (_ & Hdis & _).
      intros Hin. apply (Hdis _ Hin). rewrite fmap_cons. apply list_elem_of_here.
Qed.

Lemma add_part_key_value d k v :
  plain_key k →
  add_part d (String.list_ascii_of_string (k +:+ "=" +:+ v)) = dict_set k v d.
Proof.
  intros Hk. rewrite !list_ascii_app.
  change (String.list_ascii_of_string "=") with [Ascii.ascii_of_nat 61].
  destruct (split_eq_key_value (String.list_ascii_of_string k)
              (String.list_ascii_of_string v)) as [Hs Hc].
  { eapply Forall_impl; [exact Hk|]. by intros c [_ ?]. }
  unfold add_part. simpl in *. rewrite Hc, Hs.
  by rewrite !String.string_of_list_ascii_of_string.
Qed.

(** X3: details written as [key=value] parts with blanks between them,
    the keys distinct and free of white space and "=", the values free of
    white space, are read back as they were, in the same order. *)
Theorem parse_render_details (sep : string) (details : list (string * string)) :
  blank sep →
  NoDup details.*1 →
  Forall (λ kv, plain_key (fst kv) ∧ no_space (snd kv)) details →
  parse_details (render_details sep details) = details.
Proof.
  intros Hsep Hnd Hclean. rewrite parse_details_split. unfold render_details.
  rewrite split_join; [|done|].
  - etrans; [|by apply (foldl_set_fresh details [])].
    generalize (@nil (string * string)).
    induction Hclean as [|[k v] details [Hk Hv] _ IH]; intros d; [done|].
    rewrite !fmap_cons. cbn [foldl fst snd].
    rewrite add_part_key_value by done. apply IH.
    by apply NoDup_cons in Hnd as [_ ?].
  - apply Forall_fmap. eapply Forall_impl; [exact Hclean|].
    intros [k v] [Hk Hv]. simpl. split.
    + by destruct k.
    + unfold no_space. rewrite !list_ascii_app.
      apply Forall_app. split.
      * eapply Forall_impl; [exact Hk|]. by intros c [? _].
      * apply Forall_app. split; [by repeat constructor | done].
Qed.

(** X1: the details that [get_job_details] parses do not depend on how
    the output of [scontrol] is cut into lines; they are what the loop body
    builds from the parts of the whole output, split at white space. *)
Theorem details_from_parts (output : string) :
  parse_details output
  = foldl add_part [] (split (String.list_ascii_of_string output))
  ∧ concat ((λ l, split (strip l)) <$> splitlines (String.list_ascii_of_string output))
    = split (String.list_ascii_of_string output).
Proof. split; [apply parse_details_split | apply split_splitlines]. Qed.

(** X2: looking a key up in the parsed details gives the value of the
    last part [key=value] of the output for that key, cut at the first "="
    of the part, and nothing when the output has no such part. *)
Theorem parse_details_lookup (output k : string) :
  dict_get k (parse_details output) = last_value k (key_values output).
Proof.
  rewrite parse_details_key_values, dict_get_foldl_set.
  by destruct (last_value k (key_values output)).
Qed.

Lemma parse_render_details_witness :
  parse_details
    (render_details " " [("JobId", "12"); ("StdOut", "/home/al/o=1.txt"); ("Empty", "")])
  = [("JobId", "12"); ("StdOut", "/home/al/o=1.txt"); ("Empty", "")].
Proof.
  apply parse_render_details.
  - split; [done | by repeat constructor].
  - compute_done.
  - unfold plain_key, no_space, is_eq. compute_done.
Defined.

Lemma add_part_shape d part :
  part ≠ [] ∧ Forall (λ c, is_space c = false) part →
  NoDup d.*1 ∧ Forall (λ kv, plain_key (fst kv) ∧ no_space (snd kv)) d →
  NoDup (add_part d part).*1
  ∧ Forall (λ kv, plain_key (fst kv) ∧ no_space (snd kv)) (add_part d part).
Proof.
  intros [_ Hp] [Hnd Hd]. unfold add_part.
  destruct (contains_eq part); [|done].
  destruct (split_eq part) as [key value] eqn:Hs.
  destruct (split_eq_Forall _ _ _ _ Hs Hp) as (Hk & Hv & Hne).
  split; [by apply dict_set_NoDup|].
  apply dict_set_Forall; [|done]. simpl. unfold plain_key, no_space.
  rewrite !String.list_ascii_of_string_of_list_ascii. split; [|done].
  apply Forall_forall. intros c Hc. split.
  - by apply (proj1 (Forall_forall _ _) Hk).
  - by apply (proj1 (Forall_forall _ _) Hne).
Qed.

Lemma parse_details_shape output :
  NoDup (parse_details output).*1
  ∧ Forall (λ kv, plain_key (fst kv) ∧ no_space (snd kv)) (parse_details output).
Proof.
  rewrite parse_details_split.
  pose proof (split_from_no_space (String.list_ascii_of_string output) [])
    as Hparts.
  fold (split (String.list_ascii_of_string output)) in Hparts.
  specialize (Hparts (Forall_nil_2 _)).
  assert (Hd : NoDup (@nil (string * string)).*1
               ∧ Forall (λ kv, plain_key (fst kv) ∧ no_space (snd kv))
                        (@nil (string * string))).
  { split; [apply NoDup_nil_2 | constructor]. }
  revert Hd. generalize (@nil (string * string)).
  induction Hparts as [|part parts Hp _ IH]; intros d Hd; [done|].
  cbn [foldl]. apply IH. by apply add_part_shape.
Qed.

(** X4: the keys of the parsed details are pairwise distinct and contain
    neither white space nor "="; the values contain no white space. *)
Theorem parsed_details_are_plain (output : string) :
  NoDup (parse_details output).*1
  ∧ Forall (λ kv, plain_key (fst kv) ∧ no_space (snd kv)) (parse_details output).
Proof. apply parse_details_shape. Qed.

(** ** The detail query *)

Lemma get_job_details_eq job_id o u :
  get_job_details job_id o u
  = (Ok match o with
        | TextExits 0 (Some output) _ => parse_details output
        | _ => []
        end,
     with_details_log
       (details_log u
        ++ match o with
           | TextLaunchFails e => [DetailsFailed e]
           | TextExits 0 (Some _) _ => []
           | TextExits 0 None _ => [DetailsFailed UnicodeDecodeError]
           | TextExits _ _ (Some msg) => [ScontrolError msg]
           | TextExits _ _ None => [DetailsFailed UnicodeDecodeError]
           end)
       (with_app
          (with_exec_calls (exec_calls (app u) ++ [["scontrol"; "show"; "job"; job_id]])
             (app u)) u)).
Proof.
  unfold get_job_details, try_except, bind, run_text_process, on_app, modify,
    decode_text, log_details_error, ret, raise.
  destruct o as [e | rc out err]; simpl; [done|].
  destruct rc as [|p|p]; simpl.
  - destruct out as [output|]; simpl; [|done].
    rewrite app_nil_r. by destruct u.
  - by destruct err.
  - by destruct err.
Qed.

(** X5: [get_job_details] never raises.  It launches [scontrol show job]
    for the identifier once; when the process exits with code zero and its
    output decodes, it returns the parsed output and logs nothing; in every
    other case it returns the empty dict and appends one entry to the
    error log. *)
Theorem get_job_details_returns (job_id : string) (o : text_outcome) (u : Ui) :
  ∃ details log,
    get_job_details job_id o u
    = (Ok details,
       with_details_log (details_log u ++ log)
         (with_app
            (with_exec_calls
               (exec_calls (app u) ++ [["scontrol"; "show"; "job"; job_id]]) (app u))
            u))
    ∧ match o with
      | TextExits 0 (Some output) _ => details = parse_details output ∧ log = []
      | _ => details = [] ∧ length log = 1
      end.
Proof.
  rewrite get_job_details_eq. eexists _, _. split; [done|].
  destruct o as [e | [|p|p] [output|] [msg|]]; by simpl.
Qed.

(** ** Opening the log and the inspector *)

Lemma append_assoc_string (a b c : string) : (a +:+ b) +:+ c = a +:+ (b +:+ c).
Proof.
  induction a as [|x a IH]; [done|].
  change (String x ((a +:+ b) +:+ c) = String x (a +:+ (b +:+ c))). by rewrite IH.
Qed.

Lemma cursor_job_id_eq u :
  cursor_job_id u
  = (Ok match DataTable.cursor_key (table (app u)) with
        | Ok job_id => Some job_id
        | Raise _ => None
        end, u).
Proof.
  unfold cursor_job_id, try_except, bind, gets, lift, ret.
  by destruct (DataTable.cursor_key (table (app u))).
Qed.

(** The fallback path is the file [slurm-<id>.out] in the working
    directory. *)
Lemma fallback_path work_dir job_id :
  ∃ dir,
    path_join work_dir ("slurm-" +:+ job_id +:+ ".out")
    = dir +:+ "slurm-" +:+ job_id +:+ ".out"
    ∧ (dir = work_dir ∨ dir = work_dir +:+ "/").
Proof.
  unfold path_join.
  change (String.prefix "/" ("slurm-" +:+ job_id +:+ ".out")) with false.
  cbn iota. destruct (_ || _).
  - exists work_dir. by split; [|left].
  - exists (work_dir +:+ "/"). split; [|by right].
    by rewrite append_assoc_string.
Qed.

(** X6: with a row under the cursor, [action_view_logs] queries
    [scontrol] for that row's identifier and then always opens a log screen
    for it, also when the query fails; the path is the [StdOut] of the
    details when they hold one that is neither empty nor "(null)", and the
    file [slurm-<id>.out] in the [WorkDir] of the details, or in "." when
    they hold none, otherwise.  With no row under the cursor it does
    nothing. *)
Theorem view_logs_opens_log (o : text_outcome) (u : Ui) :
  match DataTable.cursor_key (table (app u)) with
  | Raise _ => action_view_logs o u = (Ok tt, u)
  | Ok job_id =>
    ∃ details u' path,
      get_job_details job_id o u = (Ok details, u')
      ∧ action_view_logs o u
        = (Ok tt, with_screen_stack (LogScreen job_id path :: screen_stack u) u')
      ∧ table (app u') = table (app u)
      ∧ selected_jobs (app u') = selected_jobs (app u)
      ∧ match dict_get "StdOut" details with
        | Some p =>
          if bool_decide (p = "" ∨ p = "(null)") then
            ∃ dir, path = dir +:+ "slurm-" +:+ job_id +:+ ".out"
                   ∧ (dir = default "." (dict_get "WorkDir" details)
                      ∨ dir = default "." (dict_get "WorkDir" details) +:+ "/")
          else path = p
        | None =>
          ∃ dir, path = dir +:+ "slurm-" +:+ job_id +:+ ".out"
                 ∧ (dir = default "." (dict_get "WorkDir" details)
                    ∨ dir = default "." (dict_get "WorkDir" details) +:+ "/")
        end
      ∧ (details = [] → path = "./slurm-" +:+ job_id +:+ ".out")
  end.
Proof.
  pose proof (cursor_job_id_eq u) as Hcur.
  destruct (DataTable.cursor_key (table (app u))) as [job_id|e];
    unfold action_view_logs; unfold bind at 1; rewrite Hcur; [|done].
  unfold bind, push_screen, modify. rewrite get_job_details_eq.
  eexists _, _, _. split_and!; try done.
  - unfold resolve_log_path.
    destruct (dict_get "StdOut" _) as [p|]; [|apply fallback_path].
    destruct (decide (p = "" ∨ p = "(null)")) as [Hp | Hp].
    + rewrite (bool_decide_eq_true_2 _ Hp).
      assert (bool_decide (p = "") || bool_decide (p = "(null)") = true) as ->.
      { apply orb_true_iff.
        destruct Hp; [left | right]; by apply bool_decide_eq_true_2. }
      apply fallback_path.
    + rewrite (bool_decide_eq_false_2 _ Hp).
      assert (bool_decide (p = "") || bool_decide (p = "(null)") = false) as ->; [|done].
      apply orb_false_iff. split; apply bool_decide_eq_false_2; tauto.
  - by intros ->.
Qed.

Lemma splitlines_from_word w :
  ∀ line s,
    Forall (λ c, is_linebreak c = false) w →
    splitlines_from line (w ++ s) = splitlines_from (reverse w ++ line) s.
Proof.
  induction w as [|c w IH]; intros line s Hw; [done|].
  apply Forall_cons in Hw as [Hc Hw]. simpl. rewrite Hc, IH by done.
  by rewrite reverse_cons, <- app_assoc.
Qed.

Lemma splitlines_from_lf line s :
  splitlines_from line ([Ascii.ascii_of_nat 10] ++ s)
  = reverse line :: splitlines_from [] s.
Proof. by destruct s. Qed.

(** Lines that are not empty and hold no line boundary, written with a
    line feed between them, are read back by [splitlines]. *)
Lemma splitlines_join lines :
  Forall (λ t, t ≠ "" ∧ Forall (λ c, is_linebreak c = false)
                           (String.list_ascii_of_string t)) lines →
  splitlines (String.list_ascii_of_string
                (join (String (Ascii.ascii_of_nat 10) "") lines))
  = String.list_ascii_of_string <$> lines.
Proof.
  induction 1 as [|t ts [Ht Hns] Hts IH]; [done|].
  assert (Hone : ∀ s, splitlines_from [] (String.list_ascii_of_string t ++ s)
                      = splitlines_from (reverse (String.list_ascii_of_string t)) s).
  { intros s. rewrite splitlines_from_word by done. by rewrite app_nil_r. }
  assert (Hrev : ∃ c r, reverse (String.list_ascii_of_string t) = c :: r).
  { destruct (reverse (String.list_ascii_of_string t)) as [|c r] eqn:Hr; [|by eexists _, _].
    apply (f_equal length) in Hr. rewrite length_reverse in Hr. by destruct t. }
  unfold splitlines in *. destruct ts as [|t' ts].
  - cbn [join fmap list_fmap].
    rewrite <- (app_nil_r (String.list_ascii_of_string t)) at 1. rewrite Hone.
    destruct Hrev as (c & r & Hr). cbn [splitlines_from]. rewrite Hr.
    by rewrite <- Hr, reverse_involutive.
  - change (join _ (t :: t' :: ts))
      with (t +:+ String (Ascii.ascii_of_nat 10) "" +:+ join (String (Ascii.ascii_of_nat 10) "") (t' :: ts)).
    rewrite !list_ascii_app, Hone.
    change (String.list_ascii_of_string (String (Ascii.ascii_of_nat 10) ""))
      with [Ascii.ascii_of_nat 10].
    rewrite splitlines_from_lf, IH.
    by rewrite reverse_involutive.
Qed.

Lemma no_space_no_linebreak l :
  Forall (λ c, is_space c = false) l → Forall (λ c, is_linebreak c = false) l.
Proof.
  intros Hl. eapply Forall_impl; [exact Hl|]. clear. intros c Hc. simpl in *.
  destruct (is_linebreak c) eqn:Hl; [|done].
  apply linebreak_is_space in Hl. congruence.
Qed.

(** X7: with a row under the cursor, [action_inspect_job] queries
    [scontrol] for that row's identifier and then always opens the
    inspector for it, with the parsed details, or with none when the query
    failed; the text of the inspector has one line ["key: value"] for each
    key of the details, so it reads back line by line.  With no row under
    the cursor it does nothing. *)
Theorem inspect_shows_details (o : text_outcome) (u : Ui) :
  match DataTable.cursor_key (table (app u)) with
  | Raise _ => action_inspect_job o u = (Ok tt, u)
  | Ok job_id =>
    ∃ details u',
      get_job_details job_id o u = (Ok details, u')
      ∧ action_inspect_job o u
        = (Ok tt, with_screen_stack (InspectScreen job_id details :: screen_stack u) u')
      ∧ NoDup details.*1
      ∧ splitlines (String.list_ascii_of_string (inspect_text details))
        = (λ kv, String.list_ascii_of_string (fst kv +:+ ": " +:+ snd kv)) <$> details
  end.
Proof.
  pose proof (cursor_job_id_eq u) as Hcur.
  destruct (DataTable.cursor_key (table (app u))) as [job_id|e];
    unfold action_inspect_job; unfold bind at 1; rewrite Hcur; [|done].
  unfold bind, push_screen, modify. rewrite get_job_details_eq.
  eexists _, _. split; [done|]. split; [done|].
  assert (Hshape : ∀ details,
            NoDup details.*1
            ∧ Forall (λ kv, plain_key (fst kv) ∧ no_space (snd kv)) details →
            NoDup details.*1
            ∧ splitlines (String.list_ascii_of_string (inspect_text details))
              = (λ kv, String.list_ascii_of_string (fst kv +:+ ": " +:+ snd kv))
                  <$> details).
  { intros details [Hnd Hd]. split; [done|].
    unfold inspect_text. rewrite splitlines_join, <- list_fmap_compose; [done|].
    apply Forall_fmap. eapply Forall_impl; [exact Hd|].
    intros [k v] [Hk Hv]. simpl. split; [by destruct k|].
    rewrite !list_ascii_app. apply Forall_app. split.
    - apply no_space_no_linebreak. eapply Forall_impl; [exact Hk|]. by intros c [? _].
    - apply Forall_app. split; [by repeat constructor|].
      by apply no_space_no_linebreak. }
  destruct o as [e | [|p|p] [output|] err]; apply Hshape;
    first [ apply parse_details_shape | split; [apply NoDup_nil_2 | constructor] ].
Qed.

(** ** The kill prompt *)

Lemma action_kill_job_eq a :
  SltopApp.action_kill_job a
  = (Ok (if bool_decide (elements (selected_jobs a) = []) then
           match DataTable.cursor_key (table a) with
           | Ok k => Some [k]
           | Raise _ => None
           end
         else Some (elements (selected_jobs a))), a).
Proof.
  unfold SltopApp.action_kill_job, try_except, bind, gets, lift, ret.
  case_bool_decide; [|done].
  by destruct (DataTable.cursor_key (table a)).
Qed.

(** X8: the kill action never asks to cancel nothing.  Either nothing is
    selected and no row is under the cursor, and it changes nothing; or it
    pushes one confirmation screen whose targets are not empty and hold no
    identifier twice: all the selected identifiers when there are some,
    whatever the cursor is on, and only the identifier under the cursor
    otherwise.  The application itself is left as it was. *)
Theorem kill_prompt_targets (u : Ui) :
  ∃ u',
    action_kill_job u = (Ok tt, u') ∧ app u' = app u
    ∧ ((u' = u ∧ selected_jobs (app u) = ∅
        ∧ ∃ e, DataTable.cursor_key (table (app u)) = Raise e)
       ∨ ∃ targets,
           screen_stack u'
           = ConfirmScreen
               ("Are you sure you want to cancel " +:+ pretty (length targets)
                +:+ " job(s)?") targets :: screen_stack u
           ∧ targets ≠ [] ∧ NoDup targets
           ∧ ((selected_jobs (app u) ≠ ∅
               ∧ ∀ k, k ∈ targets ↔ k ∈ selected_jobs (app u))
              ∨ (selected_jobs (app u) = ∅
                 ∧ DataTable.cursor_key (table (app u)) = Ok (default "" (head targets))
                 ∧ length targets = 1))).
Proof.
  unfold action_kill_job, bind, on_app, push_screen, modify, ret.
  rewrite action_kill_job_eq.
  case_bool_decide as Hsel.
  - apply elements_empty_inv, leibniz_equiv in Hsel.
    destruct (DataTable.cursor_key (table (app u))) as [k|e] eqn:Hk.
    + eexists. split; [done|]. split; [by destruct u|]. right.
      exists [k]. split_and!; try done.
      * apply NoDup_singleton.
      * by right.
    + exists u. split; [by destruct u|]. split; [done|]. left.
      split_and!; try done. by exists e.
  - eexists. split; [done|]. split; [by destruct u|]. right.
    exists (elements (selected_jobs (app u))). split_and!; try done.
    + apply NoDup_elements.
    + left. split.
      * intros Hempty. apply Hsel. rewrite Hempty. apply elements_empty.
      * intros k. apply elem_of_elements.
Qed.

Lemma app_steps_screens mode evs :
  ∀ u,
    screen_stack (foldl (λ s e, app_step mode e s) u evs) = screen_stack u
    ∧ app (foldl (λ s e, app_step mode e s) u evs) = run mode evs (app u).
Proof.
  induction evs as [|e evs IH]; intros u; [done|].
  cbn [foldl]. destruct (IH (app_step mode e u)) as [-> ->]. done.
Qed.

(** X9: what a confirmed prompt cancels is what the prompt was opened
    with.  Whatever events the application handles while the prompt is
    open, the button "yes" closes the prompt and starts one worker of
    [do_kill_jobs] for the targets of the prompt; any other button closes
    the prompt and leaves the application as it is. *)
Theorem confirm_cancels_prompt_targets (mode : exclusive_mode) (u : Ui)
    (message : string) (targets : list string) (below : list screen)
    (evs : list event) (button_id : string) :
  screen_stack u = ConfirmScreen message targets :: below →
  targets ≠ [] →
  ∃ u',
    on_button_pressed button_id (foldl (λ s e, app_step mode e s) u evs) = (Ok tt, u')
    ∧ screen_stack u' = below
    ∧ if bool_decide (button_id = "yes") then
        workers (app u')
        = workers (run mode evs (app u))
          ++ [{| wid := next_wid (run mode evs (app u)); at_stage := AwaitCancel targets |}]
        ∧ exec_calls (app u') = exec_calls (run mode evs (app u))
        ∧ selected_jobs (app u') = selected_jobs (run mode evs (app u))
      else app u' = run mode evs (app u).
Proof.
  intros Hstack Hne.
  destruct (app_steps_screens mode evs u) as [Hs Ha].
  unfold on_button_pressed, bind, gets, modify, on_app, ret.
  rewrite Hs, Hstack. cbn [app with_screen_stack].
  case_bool_decide.
  - unfold start_do_kill_jobs. rewrite bool_decide_eq_false_2 by done.
    unfold start_worker, modify. eexists. split; [done|].
    cbn. by rewrite Ha.
  - eexists. split; [done|]. by cbn.
Qed.

Lemma confirm_cancels_prompt_targets_witness :
  ∃ u',
    on_button_pressed "yes"
      (foldl (λ s e, app_step CancelGroup e s)
         (snd (action_kill_job (bare Scenario.two_rows)))
         [Tick; FetchReturns 0 (Scenario.poll []) 1001])
    = (Ok tt, u')
    ∧ screen_stack u' = []
    ∧ workers (app u') = [{| wid := 1; at_stage := AwaitCancel ["2"] |}]
    ∧ DataTable.rows (table (app u')) = [].
Proof.
  destruct (confirm_cancels_prompt_targets CancelGroup
              (snd (action_kill_job (bare Scenario.two_rows)))
              "Are you sure you want to cancel 1 job(s)?" ["2"] []
              [Tick; FetchReturns 0 (Scenario.poll []) 1001] "yes")
    as (u' & Hu & Hs & Hw & _); [reflexivity | discriminate |].
  exists u'. split; [exact Hu|]. split; [exact Hs|]. split; [exact Hw|].
  vm_compute in Hu. injection Hu as <-. reflexivity.
Defined.

(** ** More on the refresh cycle *)

Lemma add_job_row_eq now job a :
  add_job_row now job a
  = match format_time_used now (get job "start_time" (VInt 0)) (job_state job) with
    | Raise e => (Raise e, a)
    | Ok time_used =>
      if bool_decide (job_state job ∈ terminal_states) then (Ok tt, a)
      else
        match DataTable.add_row
                {| DataTable.row_key := job_key job;
                   DataTable.c_jobid := job_id_display (job_key job) (selected_jobs a);
                   DataTable.c_partition := get job "partition" (VStr "");
                   DataTable.c_name := get job "name" (VStr "");
                   DataTable.c_state := job_state job;
                   DataTable.c_time := time_used;
                   DataTable.c_last := placement job |} (table a) with
        | Ok tb' => (Ok tt, with_table tb' a)
        | Raise e => (Raise e, a)
        end
    end.
Proof.
  unfold add_job_row, bind, lift, gets, ret. fold (job_state job) (job_key job).
  destruct (format_time_used now _ _) as [t|e]; [|done].
  case_bool_decide; [done|]. by rewrite table_add_row_eq.
Qed.

(** The loop sees the table and the selection, and nothing else of the
    application. *)
Lemma loop_same_view now l :
  ∀ a b,
    table a = table b → selected_jobs a = selected_jobs b →
    fst (for_each (add_job_row now) l a) = fst (for_each (add_job_row now) l b)
    ∧ table (snd (for_each (add_job_row now) l a))
      = table (snd (for_each (add_job_row now) l b))
    ∧ selected_jobs (snd (for_each (add_job_row now) l a))
      = selected_jobs (snd (for_each (add_job_row now) l b)).
Proof.
  induction l as [|job l IH]; intros a b Htb Hsel; [done|].
  cbn [for_each]. unfold bind. rewrite !add_job_row_eq, Htb, Hsel.
  destruct (format_time_used now _ _) as [t|e]; [|done].
  case_bool_decide; [by apply IH|].
  destruct (DataTable.add_row _ (table b)) as [tb'|e]; [|done].
  by apply IH.
Qed.

Lemma get_jobs_failed o a :
  poll_failed o → fst (JobManager.get_jobs o a) = Ok (JobList []).
Proof.
  unfold poll_failed, JobManager.get_jobs, bind, try_except, gets,
    run_process, modify, decode, json_loads, data_get_jobs, logger_error,
    ret, raise.
  destruct o as [e | rc out err]; simpl; [done|].
  intros Hfail. case_bool_decide as Hrc.
  - by destruct err.
  - by destruct Hfail as [? | [-> | [-> | ->]]].
Qed.

(** X10: the rows that a refresh cycle leaves depend on the outcome of
    [squeue], on the clock and on the selection only: whatever the table
    held before, and whatever else happened in the application, the same
    poll gives the same rows, and completes or raises alike. *)
Theorem refresh_rows_forget_the_past (o : proc_outcome) (now : Z) (a b : App) :
  selected_jobs a = selected_jobs b →
  fst (refresh_jobs_async o now a) = fst (refresh_jobs_async o now b)
  ∧ DataTable.rows (table (snd (refresh_jobs_async o now a)))
    = DataTable.rows (table (snd (refresh_jobs_async o now b))).
Proof.
  intros Hsel.
  destruct (refresh_unfold o now a) as (jobs & a1 & Hga & _ & Hsa & ->).
  destruct (refresh_unfold o now b) as (jobs' & b1 & Hgb & _ & Hsb & ->).
  assert (jobs' = jobs) as ->.
  { pose proof (get_jobs_value o a b) as Hv. rewrite Hga, Hgb in Hv.
    by injection Hv. }
  destruct (merge_unfold now jobs a1) as (ka & _ & ->).
  destruct (merge_unfold now jobs b1) as (kb & _ & ->).
  unfold bind. destruct jobs as [l|]; [|done].
  destruct (loop_same_view now l (with_table DataTable.empty a1)
              (with_table DataTable.empty b1)) as (Hr & Ht & _);
    [done | simpl; congruence |].
  destruct (for_each _ l (with_table DataTable.empty a1)) as [[[]|ea] a2];
    destruct (for_each _ l (with_table DataTable.empty b1)) as [[[]|eb] b2];
    simpl in *; try done.
  - rewrite !restore_cursor_eq. simpl. split; [done|].
    pose proof (restore_cursor_rows ka a2) as Ha.
    pose proof (restore_cursor_rows kb b2) as Hb.
    rewrite restore_cursor_eq in Ha, Hb. simpl in Ha, Hb.
    by rewrite Ha, Hb, Ht.
  - by rewrite Ht.
Qed.

Lemma refresh_rows_forget_the_past_witness :
  DataTable.rows
    (table (snd (refresh_jobs_async (Scenario.poll [Scenario.job_pending]) 1000
                   Scenario.two_rows)))
  = DataTable.rows
      (table (snd (refresh_jobs_async (Scenario.poll [Scenario.job_pending]) 1000
                     (init "bob")))).
Proof.
  apply (refresh_rows_forget_the_past (Scenario.poll [Scenario.job_pending]) 1000
           Scenario.two_rows (init "bob")).
  reflexivity.
Defined.

(** X11: a failed poll is silent and empties the table.  When [squeue]
    does not start, exits with a non-zero code or writes something that is
    not a JSON object, the refresh cycle completes, the table is empty with
    the cursor at the origin, nothing is notified, and the selection stays
    as it was. *)
Theorem failed_poll_empties_table (o : proc_outcome) (now : Z) (a : App) :
  poll_failed o →
  fst (refresh_jobs_async o now a) = Ok tt
  ∧ table (snd (refresh_jobs_async o now a)) = DataTable.empty
  ∧ notifications (snd (refresh_jobs_async o now a)) = notifications a
  ∧ selected_jobs (snd (refresh_jobs_async o now a)) = selected_jobs a
  ∧ exited (snd (refresh_jobs_async o now a)) = exited a.
Proof.
  intros Hfail.
  assert (Hn : preserves notifications (refresh_jobs_async o now)) by frame.
  assert (He : preserves exited (refresh_jobs_async o now)) by frame.
  rewrite (preserves_eq _ _ _ Hn), (preserves_eq _ _ _ He),
    (preserves_eq _ _ _ (refresh_selected o now)).
  destruct (refresh_unfold o now a) as (jobs & a1 & Hg & _ & _ & ->).
  pose proof (get_jobs_failed o a Hfail) as Hj. rewrite Hg in Hj.
  simpl in Hj. injection Hj as ->.
  destruct (merge_unfold now (JobList []) a1) as (k & _ & ->).
  unfold bind. cbn [for_each]. unfold ret at 1. rewrite restore_cursor_eq.
  split_and!; try done. simpl. by destruct k.
Qed.

Lemma failed_poll_empties_table_witness :
  table (snd (refresh_jobs_async (LaunchFails OSError) 1000 Scenario.two_rows))
  = DataTable.empty.
Proof. by apply (failed_poll_empties_table (LaunchFails OSError) 1000 Scenario.two_rows). Defined.

Lemma add_job_row_cursor now job :
  invariant (λ a, DataTable.cursor_row (table a) = 0) (add_job_row now job).
Proof.
  intros a Ha. rewrite add_job_row_eq.
  destruct (format_time_used now _ _) as [t|e]; [|done].
  case_bool_decide; [done|]. unfold DataTable.add_row.
  by case_bool_decide.
Qed.

(** After a refresh cycle the cursor is on a row of the table, or at the
    origin of an empty table. *)
Lemma refresh_cursor_in_range o now a :
  DataTable.cursor_row (table (snd (refresh_jobs_async o now a)))
  < length (DataTable.rows (table (snd (refresh_jobs_async o now a))))
  ∨ DataTable.cursor_row (table (snd (refresh_jobs_async o now a))) = 0.
Proof.
  destruct (refresh_unfold o now a) as (jobs & a1 & _ & _ & _ & ->).
  destruct (merge_unfold now jobs a1) as (k & _ & ->).
  unfold bind. destruct jobs as [l|]; [|by right].
  pose proof (invariant_for_each _ _ l (add_job_row_cursor now)
                (with_table DataTable.empty a1) eq_refl) as Hloop.
  destruct (for_each (add_job_row now) l (with_table DataTable.empty a1))
    as [[[]|e] a2]; simpl in *; [|by right].
  rewrite restore_cursor_eq. simpl. destruct k as [key|]; [|by right].
  destruct (DataTable.get_row_index key (table a2)) as [i|e] eqn:Hi; [|by right].
  left. apply get_row_index_Ok in Hi as (r & Hl & _).
  apply lookup_lt_Some in Hl. unfold DataTable.move_cursor, DataTable.row_count.
  simpl. lia.
Qed.

Lemma shows_functional now sel rows1 rows2 l :
  Forall2 (shows now sel) rows1 l → Forall2 (shows now sel) rows2 l → rows1 = rows2.
Proof.
  intros H1. revert rows2.
  induction H1 as [|r1 job rows1 l Hs1 _ IH]; intros rows2 H2.
  - by apply Forall2_nil_inv_r in H2.
  - apply Forall2_cons_inv_r in H2 as (r2 & rows2' & Hs2 & H2 & ->).
    rewrite (IH _ H2). f_equal.
    destruct Hs1 as (? & ? & ? & ? & ? & Ht1 & ?).
    destruct Hs2 as (? & ? & ? & ? & ? & Ht2 & ?).
    rewrite Ht1 in Ht2. injection Ht2 as ?.
    destruct r1, r2; simpl in *; congruence.
Qed.

(** X12: polling the same well-formed snapshot again changes nothing on
    the screen: a second refresh cycle with the same outcome of [squeue]
    and the same clock leaves the table, rows and cursor, exactly as the
    first one left it. *)
Theorem refresh_again_is_stable (o : proc_outcome) (now : Z)
    (l : list (gmap string val)) (a : App) :
  fst (JobManager.get_jobs o a) = Ok (JobList l) →
  well_formed l →
  fst (refresh_jobs_async o now (snd (refresh_jobs_async o now a))) = Ok tt
  ∧ table (snd (refresh_jobs_async o now (snd (refresh_jobs_async o now a))))
    = table (snd (refresh_jobs_async o now a)).
Proof.
  intros Hjobs Hwf.
  pose proof (refresh_cursor_in_range o now a) as Hrange.
  destruct (refresh_well_formed o now l a Hjobs Hwf) as (a1 & Hr1 & Hshow1 & _).
  rewrite Hr1 in *. cbn [snd] in *.
  assert (Hsel : selected_jobs a1 = selected_jobs a).
  { pose proof (preserves_eq _ _ a (refresh_selected o now)) as Hs.
    by rewrite Hr1 in Hs. }
  destruct (refresh_well_formed o now l a1) as (a2 & Hr2 & Hshow2 & Hin & Hout);
    [by rewrite (get_jobs_value o a1 a) | done |].
  rewrite Hr2. cbn [fst snd]. split; [done|].
  rewrite Hsel in Hshow2.
  pose proof (shows_functional _ _ _ _ _ Hshow2 Hshow1) as Hrows.
  pose proof (shows_keys _ _ _ _ Hshow1) as Hkeys.
  destruct Hwf as [_ Hnd]. rewrite <- Hkeys in Hnd.
  assert (Hcur : DataTable.cursor_row (table a2) = DataTable.cursor_row (table a1)).
  { destruct (DataTable.rows (table a1) !! DataTable.cursor_row (table a1))
      as [r|] eqn:Hl.
    - assert (Hk : DataTable.cursor_key (table a1) = Ok (DataTable.row_key r)).
      { unfold DataTable.cursor_key. by rewrite Hl. }
      specialize (Hin _ Hk).
      unfold DataTable.keys in Hin. rewrite Hrows in Hin.
      specialize (Hin (list_elem_of_fmap_2 _ _ _ (list_elem_of_lookup_2 _ _ _ Hl))).
      unfold DataTable.cursor_key in Hin. rewrite Hrows in Hin.
      destruct (DataTable.rows (table a1) !! DataTable.cursor_row (table a2))
        as [r'|] eqn:Hl'; [|done].
      injection Hin as Hin.
      apply (NoDup_lookup _ _ _ (DataTable.row_key r) Hnd);
        rewrite list_lookup_fmap; [rewrite Hl'; simpl; by rewrite Hin | by rewrite Hl].
    - apply lookup_ge_None in Hl.
      destruct Hrange as [Hlt | H0]; [lia|].
      assert (Hempty : DataTable.rows (table a1) = []).
      { destruct (DataTable.rows (table a1)); [done | simpl in Hl; lia]. }
      pose proof (refresh_cursor_in_range o now a1) as Hrange2.
      rewrite Hr2 in Hrange2. cbn [snd] in Hrange2.
      rewrite Hrows, Hempty in Hrange2. simpl in Hrange2.
      destruct Hrange2; [lia | congruence]. }
  destruct (table a1), (table a2); simpl in *; congruence.
Qed.

Lemma refresh_again_is_stable_witness :
  table (snd (refresh_jobs_async
                (Scenario.poll [Scenario.job_running; Scenario.job_completed;
                                Scenario.job_pending]) 1000
                (snd (refresh_jobs_async
                        (Scenario.poll [Scenario.job_running; Scenario.job_completed;
                                        Scenario.job_pending]) 1000
                        Scenario.two_rows))))
  = table (snd (refresh_jobs_async
                  (Scenario.poll [Scenario.job_running; Scenario.job_completed;
                                  Scenario.job_pending]) 1000
                  Scenario.two_rows)).
Proof.
  apply (refresh_again_is_stable _ 1000
           [Scenario.job_running; Scenario.job_completed; Scenario.job_pending]
           Scenario.two_rows);
    [reflexivity | snapshot_well_formed].
Defined.

Lemma add_job_row_marks now job sel :
  invariant
    (λ a, selected_jobs a = sel
          ∧ Forall (λ r, DataTable.c_jobid r = job_id_display (DataTable.row_key r) sel)
                   (DataTable.rows (table a)))
    (add_job_row now job).
Proof.
  intros a [Hsel Hrows]. rewrite add_job_row_eq.
  destruct (format_time_used now _ _) as [t|e]; [|done].
  case_bool_decide; [done|]. unfold DataTable.add_row.
  case_bool_decide; [done|]. simpl. split; [done|].
  apply Forall_app. split; [done|]. constructor; [|done]. simpl. by rewrite Hsel.
Qed.

(** The first cell of every row after a refresh cycle carries the
    selection marker exactly when the key of the row is selected, also when
    the cycle raises midway. *)
Lemma refresh_marks o now a :
  Forall (λ r, DataTable.c_jobid r
               = job_id_display (DataTable.row_key r) (selected_jobs a))
         (DataTable.rows (table (snd (refresh_jobs_async o now a)))).
Proof.
  destruct (refresh_unfold o now a) as (jobs & a1 & _ & _ & Hsel & ->).
  destruct (merge_unfold now jobs a1) as (k & _ & ->).
  rewrite <- Hsel.
  assert (Hinv : invariant
            (λ a', selected_jobs a' = selected_jobs a1
                   ∧ Forall (λ r, DataTable.c_jobid r
                                  = job_id_display (DataTable.row_key r) (selected_jobs a1))
                            (DataTable.rows (table a')))
            (do! match jobs with
                 | JobList l => for_each (add_job_row now) l
                 | NotIterable => raise TypeError
                 end in
             restore_cursor k)).
  { apply invariant_bind.
    - destruct jobs; [|apply invariant_raise].
      apply invariant_for_each. intros job. apply add_job_row_marks.
    - intros _ s [Hs Hr]. rewrite restore_cursor_rows. split; [|done].
      rewrite restore_cursor_eq. simpl. destruct k as [key|]; [|done].
      by destruct (DataTable.get_row_index key (table s)). }
  apply (Hinv (with_table DataTable.empty a1)). split; [done | constructor].
Qed.

(** X13: after a cancel that succeeded, no row of the rebuilt table is
    marked as selected: the first cell of every row is the plain identifier
    that is its key. *)
Theorem no_mark_after_cancel (job_ids : list string)
    (cancel_o fetch_o : proc_outcome) (now : Z) (a : App) :
  cancel_succeeds job_ids cancel_o →
  Forall (λ r, DataTable.c_jobid r = DataTable.row_key r)
         (DataTable.rows (table (snd (do_kill_jobs job_ids cancel_o fetch_o now a)))).
Proof.
  intros Hok. unfold do_kill_jobs, bind at 1.
  rewrite (cancel_jobs_success _ _ _ Hok).
  unfold bind, notify, modify. cbn [fst snd].
  eapply Forall_impl; [apply refresh_marks|].
  intros r ->. cbn [selected_jobs with_selected]. unfold job_id_display.
  rewrite bool_decide_eq_false_2; [done | apply not_elem_of_empty].
Qed.

Lemma no_mark_after_cancel_witness :
  Forall (λ r, DataTable.c_jobid r = DataTable.row_key r)
         (DataTable.rows
            (table (snd (do_kill_jobs ["2"] (Exits 0 NotJson (Some ""))
                           (Scenario.poll [Scenario.job_pending; Scenario.job_running])
                           1000 (with_selected {["1"; "2"]} Scenario.two_rows))))).
Proof.
  apply no_mark_after_cancel. split; [discriminate | by eexists _, _].
Defined.

(** ** More on the event loop *)

Lemma step_selection_cases mode e a :
  selected_jobs (step mode e a) = selected_jobs a
  ∨ selected_jobs (step mode e a) = ∅
  ∨ ∃ k, DataTable.cursor_key (table a) = Ok k
         ∧ selected_jobs (step mode e a) = toggle k (selected_jobs a).
Proof.
  unfold step. case_bool_decide; [by left|].
  destruct e as [| | |targets|w o|w o now].
  - left. apply preserves_eq, refresh_jobs_selected.
  - left. apply preserves_eq, refresh_jobs_selected.
  - destruct (DataTable.cursor_key (table a)) as [k|err] eqn:Hk.
    + right; right. exists k. split; [done|].
      rewrite (action_toggle_select_on _ _ _ Hk).
      by rewrite (preserves_eq _ _ _ (refresh_jobs_selected _)).
    + left. by rewrite (action_toggle_select_off _ _ _ Hk).
  - left. apply preserves_eq, start_do_kill_jobs_selected.
  - destruct (worker_stage w a) as [[|ids|]|] eqn:Hw; try by left.
    rewrite resume_selected.
    destruct (cancel_succeeds_or ids o) as [Hok | Hfail].
    + right; left. by apply kill_continuation_success.
    + left. by apply kill_continuation_failure.
  - left.
    destruct (worker_stage w a) as [[|ids|]|]; try done;
      rewrite resume_selected;
      apply (preserves_eq selected_jobs (do! refresh_jobs_async o now in ret None));
      frame.
Qed.

Lemma run_snoc mode evs e a : run mode (evs ++ [e]) a = step mode e (run mode evs a).
Proof. unfold run. by rewrite foldl_app. Qed.

(** X14: only jobs that were on the screen get selected.  In every state
    that the application reaches, each selected identifier was the key of
    a row of the table in some earlier state of the run. *)
Theorem selected_was_displayed (mode : exclusive_mode) (events : list event)
    (u k : string) :
  k ∈ selected_jobs (run mode events (init u)) →
  ∃ n, n ≤ length events
       ∧ k ∈ DataTable.keys (table (run mode (take n events) (init u))).
Proof.
  induction events as [|e events IH] using rev_ind.
  - intros Hk. by apply not_elem_of_empty in Hk.
  - rewrite run_snoc, length_app. simpl. intros Hk.
    assert (Hold : k ∈ selected_jobs (run mode events (init u)) →
              ∃ n, n ≤ length events + 1
                   ∧ k ∈ DataTable.keys
                           (table (run mode (take n (events ++ [e])) (init u)))).
    { intros Hin. destruct (IH Hin) as (n & Hn & Hkeys).
      exists n. split; [lia|]. by rewrite take_app_le. }
    destruct (step_selection_cases mode e (run mode events (init u)))
      as [Heq | [Heq | (k0 & Hcur & Heq)]]; rewrite Heq in Hk.
    + by apply Hold.
    + by apply not_elem_of_empty in Hk.
    + apply toggle_elem_of in Hk. destruct (decide (k = k0)) as [-> | Hne];
        [|by apply Hold].
      exists (length events). split; [lia|].
      rewrite take_app_length.
      unfold DataTable.cursor_key in Hcur.
      destruct (DataTable.rows _ !! _) as [r|] eqn:Hl; [|done].
      injection Hcur as <-. unfold DataTable.keys.
      apply list_elem_of_fmap_2. by apply list_elem_of_lookup_2 in Hl.
Qed.

Lemma selected_was_displayed_witness :
  ∃ n, n ≤ 3
       ∧ "1" ∈ DataTable.keys
                 (table (run CancelGroup
                           (take n [Tick;
                                    FetchReturns 0 (Scenario.poll [Scenario.job_pending]) 1000;
                                    KeySpace]) (init "alice"))).
Proof.
  apply (selected_was_displayed CancelGroup
           [Tick; FetchReturns 0 (Scenario.poll [Scenario.job_pending]) 1000; KeySpace]
           "alice" "1").
  compute_done.
Defined.

(** X15: [cancel_jobs] never raises.  With no identifier it returns
    [False] and neither launches a process nor logs; otherwise it launches
    [scancel] once with all the identifiers, in order, returns [True]
    exactly when the process exits with code zero, and logs one error in
    every other case. *)
Theorem cancel_jobs_result (job_ids : list string) (o : proc_outcome) (a : App) :
  ∃ b log,
    JobManager.cancel_jobs job_ids o a
    = (Ok b,
       with_error_log (error_log a ++ log)
         (with_exec_calls
            (exec_calls a
             ++ (if bool_decide (job_ids = []) then [] else ["scancel" :: job_ids]))
            a))
    ∧ (b = true ↔ cancel_succeeds job_ids o)
    ∧ length log = (if b || bool_decide (job_ids = []) then 0 else 1).
Proof.
  destruct (cancel_succeeds_or job_ids o) as [Hok | Hfail].
  - exists true, []. rewrite (cancel_jobs_success _ _ _ Hok).
    destruct Hok as [Hne Hex]. rewrite bool_decide_eq_false_2 by done.
    rewrite app_nil_r. split_and!; [by destruct a | done | done].
  - unfold cancel_succeeds in Hfail.
    unfold JobManager.cancel_jobs, bind, try_except, run_process, modify,
      decode, logger_error, ret, raise.
    case_bool_decide as Hids.
    + exists false, []. rewrite !app_nil_r. split_and!; [by destruct a | | done].
      split; [done | by intros [? _]].
    + destruct o as [e | rc out err]; simpl.
      * exists false, [CancelFailed e]. split_and!; [done | | done].
        split; [done | by intros [_ (? & ? & ?)]].
      * case_bool_decide as Hrc.
        -- destruct err; simpl; eexists false, [_];
             (split_and!; [done | | done]); (split; [done | tauto]).
        -- destruct Hfail. split; [done|]. exists out, err.
           f_equal. destruct (decide (rc = 0%Z)); [done | by destruct Hrc].
Qed.

Lemma resume_exited w (m : M App (option stage)) a :
  preserves exited m →
  exited (resume w m a)
  = match fst (m a) with
    | Ok _ => exited a
    | Raise e => Some e
    end.
Proof.
  intros Hm. unfold resume. pose proof (preserves_eq exited m a Hm) as He.
  by destruct (m a) as [[[st|]|e] a'].
Qed.

Lemma kill_continuation_returns ids o a :
  ∃ st,
    fst ((let! success := JobManager.cancel_jobs ids o in
          let! goes_on := after_cancel ids success in
          ret (if goes_on then Some AwaitGetJobsAfterCancel else None)) a)
    = Ok st.
Proof.
  unfold bind.
  destruct (cancel_succeeds_or ids o) as [Hok | Hfail].
  - rewrite (cancel_jobs_success _ _ _ Hok). by eexists.
  - destruct (cancel_jobs_failure _ _ a Hfail) as [log ->]. by eexists.
Qed.

(** No key, no tick and no outcome of [scancel] ends the application: only
    a refresh cycle that raises does. *)
Lemma step_exited mode e a :
  exited a = None →
  exited (step mode e a) = None
  ∨ ∃ w o now, e = FetchReturns w o now ∧ fst (refresh_jobs_async o now a) ≠ Ok tt.
Proof.
  intros Hlive. unfold step. case_bool_decide; [by left|].
  destruct e as [| | |targets|w o|w o now].
  - left. by rewrite (preserves_eq _ _ _ (refresh_jobs_exited _)).
  - left. by rewrite (preserves_eq _ _ _ (refresh_jobs_exited _)).
  - left. assert (Hp : preserves exited (action_toggle_select mode)) by frame.
    by rewrite (preserves_eq _ _ _ Hp).
  - left. assert (Hp : preserves exited (start_do_kill_jobs targets)) by frame.
    by rewrite (preserves_eq _ _ _ Hp).
  - left. destruct (worker_stage w a) as [[|ids|]|]; try done.
    rewrite resume_exited by frame.
    by destruct (kill_continuation_returns ids o a) as [st ->].
  - assert (Hr : ∀ w', exited (resume w' (do! refresh_jobs_async o now in ret (@None stage)) a) = None
                       ∨ fst (refresh_jobs_async o now a) ≠ Ok tt).
    { intros w'. rewrite resume_exited by frame. unfold bind.
      destruct (refresh_jobs_async o now a) as [[[]|err] a']; [by left | by right]. }
    destruct (worker_stage w a) as [[|ids|]|]; try by left.
    + destruct (Hr w) as [? | ?]; [by left | right; by exists w, o, now].
    + destruct (Hr w) as [? | ?]; [by left | right; by exists w, o, now].
Qed.

(** X16: the application never ends on its own account.  As long as every
    poll that returns brings a well-formed snapshot, a failed poll counting
    as the empty one, no sequence of ticks, keys, confirmed cancels and
    outcomes of [scancel] makes a worker raise: the application is still
    running. *)
Theorem well_formed_polls_never_exit (mode : exclusive_mode)
    (events : list event) (u : string) :
  Forall (λ e, match e with
               | FetchReturns _ o _ =>
                 ∃ l, fst (JobManager.get_jobs o (init u)) = Ok (JobList l)
                      ∧ well_formed l
               | _ => True
               end) events →
  exited (run mode events (init u)) = None.
Proof.
  induction events as [|e events IH] using rev_ind; [done|].
  intros Hall. apply Forall_app in Hall. destruct Hall as [Hall He].
  apply (proj1 (Forall_singleton _ _)) in He. rewrite run_snoc.
  destruct (step_exited mode e _ (IH Hall)) as [Hnone | (w & o & now & -> & Hraise)];
    [done|].
  simpl in He. destruct He as (l & Hl & Hwf). destruct Hraise.
  apply (refresh_completes_iff o now l); [|done].
  by rewrite (get_jobs_value o _ (init u)).
Qed.

Lemma well_formed_polls_never_exit_witness :
  exited (run CancelGroup
            [Tick; FetchReturns 0 (Scenario.poll [Scenario.job_pending]) 1000; KeySpace;
             ConfirmKill ["1"]; CancelReturns 2 (LaunchFails OSError);
             FetchReturns 1 (LaunchFails OSError) 1005] (init "alice"))
  = None.
Proof.
  apply well_formed_polls_never_exit.
  repeat (constructor; try done).
  - exists [Scenario.job_pending]. split; [reflexivity | snapshot_well_formed].
  - exists []. split; [reflexivity | split; constructor].
Defined.

(** ** The time column reads back *)

Lemma pretty_N_char_digit x : is_digit (pretty_N_char x).
Proof. unfold pretty_N_char. by repeat case_match. Qed.

Lemma pretty_N_go_digits x :
  ∀ s, Forall is_digit (String.list_ascii_of_string s) →
       Forall is_digit (String.list_ascii_of_string (pretty_N_go x s)).
Proof.
  induction (N.lt_wf_0 x) as [x _ IH]; intros s Hs.
  assert (x = 0 ∨ 0 < x)%N as [-> | Hx] by lia; [done|].
  rewrite pretty_N_go_step by done. apply IH; [by apply N.div_lt|].
  simpl. constructor; [apply pretty_N_char_digit | done].
Qed.

Lemma pretty_Z_digits (z : Z) :
  (0 ≤ z)%Z → Forall is_digit (String.list_ascii_of_string (pretty z)).
Proof.
  intros Hz. destruct z as [|p|p]; [| |lia].
  - by repeat constructor.
  - unfold pretty, pretty_Z, pretty, pretty_positive, pretty, pretty_N.
    case_decide; [done|]. apply pretty_N_go_digits. constructor.
Qed.

Lemma fmt02_two_digits (x : Z) :
  (0 ≤ x < 60)%Z →
  ∃ c1 c2, String.list_ascii_of_string (fmt02 x) = [c1; c2]
           ∧ is_digit c1 ∧ is_digit c2.
Proof.
  intros Hx.
  assert (Hall : Forall (λ x, ∃ c1 c2, String.list_ascii_of_string (fmt02 x) = [c1; c2]
                                       ∧ is_digit c1 ∧ is_digit c2) (seqZ 0 60)).
  { vm_compute seqZ. repeat constructor; by eexists _, _. }
  apply (proj1 (Forall_forall _ _) Hall). apply elem_of_seqZ. lia.
Qed.

Lemma fmt02_inj (x y : Z) :
  (0 ≤ x < 60)%Z → (0 ≤ y < 60)%Z → fmt02 x = fmt02 y → x = y.
Proof.
  intros Hx Hy.
  assert (Hall : Forall (λ x, Forall (λ y, fmt02 x = fmt02 y → x = y) (seqZ 0 60))
                        (seqZ 0 60)) by compute_done.
  assert (Hin : ∀ z, (0 ≤ z < 60)%Z → z ∈ seqZ 0 60).
  { intros z Hz. apply elem_of_seqZ. lia. }
  pose proof (proj1 (Forall_forall _ _) Hall x (Hin x Hx)) as Hrow.
  exact (proj1 (Forall_forall _ _) Hrow y (Hin y Hy)).
Qed.

Lemma list_ascii_inj s t :
  String.list_ascii_of_string s = String.list_ascii_of_string t → s = t.
Proof.
  intros H. apply (f_equal String.string_of_list_ascii) in H.
  by rewrite !String.string_of_list_ascii_of_string in H.
Qed.

(** Two texts that start with digits and go on with a character that is
    not a digit agree on the digits, on the character and on the rest. *)
Lemma digits_then_sep a a' c c' b b' :
  Forall is_digit a → Forall is_digit a' →
  ¬ is_digit c → ¬ is_digit c' →
  a ++ c :: b = a' ++ c' :: b' → a = a' ∧ c = c' ∧ b = b'.
Proof.
  intros Ha. revert a'. induction Ha as [|x a Hx _ IH]; intros a' Ha' Hc Hc' Heq.
  - destruct Ha' as [|x' a' Hx' _]; simpl in Heq; [by injection Heq|].
    injection Heq as -> _. done.
  - destruct Ha' as [|x' a' Hx' Ha']; simpl in Heq.
    + injection Heq as -> _. done.
    + injection Heq as -> Heq. destruct (IH a' Ha' Hc Hc' Heq) as (-> & -> & ->).
      done.
Qed.

(** The display of a running job, by the size of the elapsed time. *)
Lemma format_time_used_shape now st :
  (st ≤ now)%Z →
  ∃ d h m s : Z,
    (0 ≤ d ∧ 0 ≤ h < 24 ∧ 0 ≤ m < 60 ∧ 0 ≤ s < 60)%Z
    ∧ (now - st = ((d * 24 + h) * 60 + m) * 60 + s)%Z
    ∧ format_time_used now (VInt st) (VStr "RUNNING")
      = Ok (if bool_decide (d > 0)%Z then
              pretty d +:+ "-" +:+ fmt02 h +:+ ":" +:+ fmt02 m +:+ ":" +:+ fmt02 s
            else if bool_decide (h > 0)%Z then
              pretty h +:+ ":" +:+ fmt02 m +:+ ":" +:+ fmt02 s
            else pretty m +:+ ":" +:+ fmt02 s).
Proof.
  intros Hst. unfold format_time_used.
  rewrite bool_decide_eq_false_2 by (intros H; by apply H).
  rewrite bool_decide_eq_false_2 by lia. unfold divmod.
  set (e := (now - st)%Z).
  exists (((e `div` 60) `div` 60) `div` 24)%Z, (((e `div` 60) `div` 60) `mod` 24)%Z,
    ((e `div` 60) `mod` 60)%Z, (e `mod` 60)%Z.
  split; [|split; [|by repeat case_bool_decide]];
    assert (0 ≤ e)%Z by (subst e; lia); clearbody e;
    Z.div_mod_to_equations; lia.
Qed.

Lemma not_digit_colon : ¬ is_digit (Ascii.ascii_of_nat 58).
Proof. by vm_compute. Qed.

Lemma not_digit_dash : ¬ is_digit (Ascii.ascii_of_nat 45).
Proof. by vm_compute. Qed.

(** X17: the time column tells running jobs apart: two running jobs that
    started at different times, neither after the clock reading, never
    show the same elapsed time. *)
Theorem time_used_reads_back (now st1 st2 : Z) :
  (st1 ≤ now)%Z → (st2 ≤ now)%Z →
  st1 ≠ st2 →
  format_time_used now (VInt st1) (VStr "RUNNING")
  ≠ format_time_used now (VInt st2) (VStr "RUNNING").
Proof.
  intros H1 H2 Hne. cut (format_time_used now (VInt st1) (VStr "RUNNING")
                         = format_time_used now (VInt st2) (VStr "RUNNING") → st1 = st2).
  { intros Hcut Heq. by apply Hne, Hcut. }
  destruct (format_time_used_shape now st1 H1)
    as (d1 & h1 & m1 & s1 & (Hd1 & Hh1 & Hm1 & Hs1) & He1 & ->).
  destruct (format_time_used_shape now st2 H2)
    as (d2 & h2 & m2 & s2 & (Hd2 & Hh2 & Hm2 & Hs2) & He2 & ->).
  intros Heq. injection Heq as Heq.
  apply (f_equal String.list_ascii_of_string) in Heq.
  destruct (fmt02_two_digits h1 ltac:(lia)) as (a1 & b1 & Hfh1 & _ & _).
  destruct (fmt02_two_digits h2 ltac:(lia)) as (a2 & b2 & Hfh2 & _ & _).
  destruct (fmt02_two_digits m1 Hm1) as (p1 & q1 & Hfm1 & Hp1 & _).
  destruct (fmt02_two_digits m2 Hm2) as (p2 & q2 & Hfm2 & Hp2 & _).
  destruct (fmt02_two_digits s1 Hs1) as (x1 & y1 & Hfs1 & Hx1 & _).
  destruct (fmt02_two_digits s2 Hs2) as (x2 & y2 & Hfs2 & Hx2 & _).
  assert (Hcomp : d1 = d2 ∧ h1 = h2 ∧ m1 = m2 ∧ s1 = s2); [|lia].
  assert (Hf : ∀ u v cu du cv dv,
             (0 ≤ u < 60)%Z → (0 ≤ v < 60)%Z →
             String.list_ascii_of_string (fmt02 u) = [cu; du] →
             String.list_ascii_of_string (fmt02 v) = [cv; dv] →
             cu = cv → du = dv → u = v).
  { intros u v cu du cv dv Hu Hv Hfu Hfv -> ->.
    apply fmt02_inj; [done..|]. apply list_ascii_inj. by rewrite Hfu, Hfv. }
  repeat case_bool_decide;
    rewrite !list_ascii_app in Heq;
    change (String.list_ascii_of_string ":") with [Ascii.ascii_of_nat 58] in Heq;
    change (String.list_ascii_of_string "-") with [Ascii.ascii_of_nat 45] in Heq;
    rewrite ?Hfh1, ?Hfh2, ?Hfm1, ?Hfm2, ?Hfs1, ?Hfs2 in Heq;
    cbn [app] in Heq.
  all: apply digits_then_sep in Heq as (Hp & Hc & Hrest);
    [ | by apply pretty_Z_digits; lia | by apply pretty_Z_digits; lia
      | first [apply not_digit_colon | apply not_digit_dash]
      | first [apply not_digit_colon | apply not_digit_dash] ].
  all: try (by vm_compute in Hc).
  all: simpl in Hrest; try discriminate Hrest.
  all: apply list_ascii_inj, (inj pretty) in Hp.
  all: injection Hrest as ?; subst.
  all: split_and!;
    first [ done | lia
          | eapply Hf; [lia | lia | eassumption | eassumption | done | done] ].
Qed.

Lemma time_used_reads_back_witness :
  (13601 ≤ 100000)%Z ∧ (13600 ≤ 100000)%Z ∧ 13601%Z ≠ 13600%Z
  ∧ format_time_used 100000 (VInt 13601) (VStr "RUNNING")
    ≠ format_time_used 100000 (VInt 13600) (VStr "RUNNING").
Proof. split_and!; [lia | lia | lia | apply time_used_reads_back; lia]. Defined.
